(** * Sanyam07/quora: tokenizers, model registry, vocabulary and Learner

    A shallow embedding of the pure logic of the repository's Python
    sources (tokenizers.py, ens_model_list.py, preprocess.py, learner.py)
    and the properties its specification states about them.

    Conventions.  Python [str] values are [string]s; Python dictionaries
    used as finite maps are [gmap]s, and insertion-ordered dictionaries
    whose order is observable are association lists; Python floats are
    the rationals they denote ([Q]), so that comparisons are exact.  The
    thresholds of the search in [predict_labels] are the exception:
    [np.arange] computes them with a rounding that decides how many there
    are, so they are binary64 numbers ([float]) with the operations of
    IEEE 754. *)

From Stdlib Require Import PrimFloat FloatOps SpecFloat.
From Stdlib Require Uint63.
From Stdlib Require Import Ascii QArith Qround Lqa.
From stdpp Require Import gmap strings list sorting.

Set Warnings "-inexact-float".

Open Scope string_scope.

(** ** Part I: the embedding *)

(** *** Python string primitives *)

Module PyStr.

(** [s.split(sep)] for a one-character separator: never empty, one more
    piece than there are separators, empty pieces kept. *)
Fixpoint split (sep : ascii) (s : string) : list string :=
  match s with
  | EmptyString => [EmptyString]
  | String c s' =>
      if Ascii.eqb c sep then EmptyString :: split sep s'
      else match split sep s' with
           | [] => [String c EmptyString]
           | w :: ws => String c w :: ws
           end
  end.

(** [sep.join(ws)]. *)
Fixpoint join (sep : string) (ws : list string) : string :=
  match ws with
  | [] => EmptyString
  | [w] => w
  | w :: ws' => w +:+ sep +:+ join sep ws'
  end.

(** [s[:n]] *)
Definition slice_to (n : nat) (s : string) : string := String.substring 0 n s.

(** [s[n:]] *)
Definition slice_from (n : nat) (s : string) : string :=
  String.substring n (String.length s - n) s.

(** [s[n]] as a one-character string; the empty string stands for the
    IndexError that the callers below never trigger. *)
Definition char_at (n : nat) (s : string) : string :=
  match String.get n s with
  | Some c => String c EmptyString
  | None => EmptyString
  end.

(** The characters of a string. *)
Definition chars (s : string) : list ascii := String.list_ascii_of_string s.

(** [c.lower()] on the ASCII range. *)
Definition lower_ascii (c : ascii) : ascii :=
  let n := nat_of_ascii c in
  if (65 <=? n)%nat && (n <=? 90)%nat then ascii_of_nat (n + 32) else c.

(** [s.lower()] on ASCII text. *)
Fixpoint lower (s : string) : string :=
  match s with
  | EmptyString => EmptyString
  | String c s' => String (lower_ascii c) (lower s')
  end.

End PyStr.

(** *** tokenizers.py *)

Module Tokenizers.
Import PyStr.

(** [WhitespaceTokenizer.__call__]: [words = text.split(' ')]. *)
Definition WhitespaceTokenizer (text : string) : list string :=
  split " " text.

(** The character class of [re.compile('[,!.?()]')]. *)
Definition is_punct (c : ascii) : bool :=
  existsb (Ascii.eqb c) (chars ",!.?()").

(** [self.punct.search(ss)]: [Some start] of the leftmost match, [None]
    when there is no match. *)
Fixpoint punct_search (ss : string) : option nat :=
  match ss with
  | EmptyString => None
  | String c ss' =>
      if is_punct c then Some 0%nat else S <$> punct_search ss'
  end.

(** The body of the loop of [CustomTokenizer.__call__] for one [ss]. *)
Definition ss_tokens (ss : string) : list string :=
  match punct_search ss with
  | Some start =>
      List.filter (fun t => (0 <? String.length t)%nat)
        [slice_to start ss; char_at start ss; slice_from (S start) ss]
  | None => [ss]
  end.

(** [CustomTokenizer.__call__]: the loop extends [tokens] in order. *)
Definition CustomTokenizer (text : string) : list string :=
  foldl (fun tokens ss => (tokens ++ ss_tokens ss)%list) [] (split " " text).

Section Spacy.
(** [spacy.load('en').tokenizer], an external collaborator: the texts of
    the tokens it returns. *)
Variable spacy_en_tokenizer : string -> list string.

(** [lower_spacy(x)]: lowercases, then tokenizes. *)
Definition lower_spacy (x : string) : list string :=
  spacy_en_tokenizer (lower x).

(** [LowerSpacy.__call__(self, text)]: returns the closure
    [lambda x: [tok.text for tok in spacy_en.tokenizer(x)]]; [text] is
    not used and nothing is lowercased. *)
Definition LowerSpacy (text : string) : string -> list string :=
  fun x => spacy_en_tokenizer x.

End Spacy.

End Tokenizers.

(** *** ens_model_list.py *)

Module EnsModelList.

(** The entries of the [model_dict] literal, in source order:
    key, run identifier, argument string. *)
Definition model_entries : list (string * (string * string)) :=
  [ ("wnews", ("Jan_10_2019__21:56:52", "-es 3 -e 10 -em wnews  -hd 150 -we 10 --lrstep 10"));
    ("glove", ("Jan_10_2019__22:10:15", "-es 2 -e 9 -hd 150"));
    ("paragram", ("Jan_11_2019__11:10:57", "-hd 150 -es 2 -e 10 -em paragram -t lowerspacy -us 0"));
    ("gnews", ("Jan_11_2019__20:21:01", "-em gnews -es 2 -e 10 -hd 150 -us 0.1"));
    ("gnews_num", ("Jan_12_2019__22:13:37", "-em gnews -t gnews_num -es 2 -e 10 -us 0.1 -hd 150"));
    ("wnews_test", ("Jan_10_2019__19:33:05_test", "--mode test -em wnews"));
    ("glove_test", ("Jan_10_2019__19:34:39_test", "--mode test -em glove"));
    ("glove_cv", ("Jan_17_2019__17_59_36", "-hd 150 -k 5 -ne 3"));
    ("paragram_cv", ("Jan_15_2019__04_23_16", "-k 5 -hd 150 -e 10 -em paragram -t lowerspacy -us 0.1"));
    ("wnews_cv", ("Jan_11_2019__05:09:58", "-es 3 -e 10 -em wnews -m BiLSTMPoolTest -vl -hd 150 -we 10 --lrstep 20 -k 5 -us 0.1"));
    ("gnews_cv", ("Jan_18_2019__15_06_29", "-em gnews -es 2 -e 10 -hd 150 -us 0.1 -k 5 -ne 3"));
    ("gnews_num_cv", ("Jan_18_2019__16_45_38", "-em gnews -e 10 -hd 150 -us 0.1 -k 5 -ne 3 -t gnews_num"));
    ("gnews_ph_cv", ("Jan_19_2019__16_05_11", "-em gnews -e 10 -hd 150 -ne 3 -t gnews_ph -k 5 -us 0.1"));
    ("gnews_ph_num_cv", ("Jan_19_2019__18_56_02", "-em gnews -e 10 -hd 150 -ne 3 -t gnews_ph_num -k 5 -us 0.1")) ].

(** A dictionary display: the items are inserted left to right, a later
    item replacing an earlier one with the same key. *)
Definition dict_literal {V} (items : list (string * V)) : gmap string V :=
  foldl (fun d kv => <[kv.1 := kv.2]> d) ∅ items.

(** [model_dict]. *)
Definition model_dict : gmap string (string * string) :=
  dict_literal model_entries.

(** The outcome of a dictionary subscription. *)
Inductive subscript_result (V : Type) : Type :=
| Value (v : V)
| KeyError (key : string).
Arguments Value {V} v.
Arguments KeyError {V} key.

(** Modelled from the spec: the resolution of a registry key, which lives
    in the Ensemble component ([get_pred_path] of ensemble.py, not among
    the sources).  The specification has an absent key propagate as a
    NotFound-style failure of the lookup layer, which is the subscription
    [model_dict[key]]. *)
Definition resolve (key : string) : subscript_result (string * string) :=
  match model_dict !! key with
  | Some entry => Value entry
  | None => KeyError key
  end.

End EnsModelList.

(** *** utils.py *)

Module Utils.

Local Open Scope Q_scope.

(** Modelled from the spec: [f1_metric(tp, n_targs, n_preds)] of utils.py,
    which is not among the sources.  Precision is [tp / n_preds] and
    recall is [tp / n_targs], each taken as zero when its denominator is
    zero; F1 is [2 * precision * recall / (precision + recall)], taken as
    zero when both are zero. *)
Definition f1_metric (tp n_targs n_preds : Z) : Q :=
  let precision :=
    if (n_preds =? 0)%Z then 0 else inject_Z tp / inject_Z n_preds in
  let recall :=
    if (n_targs =? 0)%Z then 0 else inject_Z tp / inject_Z n_targs in
  if Qeq_bool (precision + recall) 0 then 0
  else Qred (2 * precision * recall / (precision + recall)).

End Utils.

(** *** learner.py *)

Module Learner.

Local Open Scope Q_scope.

(** **** Numbers and the run-info record *)

(** A numeric value of a run-info record: a Python [int] or a [float],
    the latter as the rational it denotes, or as the infinity or the
    not-a-number that it is. *)
Inductive num : Type :=
| PyInt (z : Z)
| PyFloat (q : Q)
| PyInf (negative : bool)
| PyNaN.

(** Rounding to the nearest integer, ties to the even one. *)
Definition round_half_even (q : Q) : Z :=
  let f := Qfloor q in
  match Qcompare (q - inject_Z f) (1 # 2) with
  | Lt => f
  | Eq => if Z.even f then f else (f + 1)%Z
  | Gt => (f + 1)%Z
  end.

(** [round(v, ndigits)] for [ndigits >= 0]: an [int] is returned as it
    is, a [float] is rounded to [ndigits] decimal places, and an infinity
    or a not-a-number is returned as it is. *)
Definition round (v : num) (ndigits : nat) : num :=
  match v with
  | PyInt z => PyInt z
  | PyFloat q =>
      let scale := (10 ^ Z.of_nat ndigits)%Z in
      PyFloat (Qred (inject_Z (round_half_even (q * inject_Z scale))
                     / inject_Z scale))
  | PyInf negative => PyInf negative
  | PyNaN => PyNaN
  end.

(** An insertion-ordered dictionary from field names to numbers. *)
Definition info_dict : Type := list (string * num).

Definition keys {V} (d : list (string * V)) : list string := map fst d.
Definition values {V} (d : list (string * V)) : list V := map snd d.

(** [d[k] = v]: the value is replaced in place when the key is present,
    and the item is appended otherwise. *)
Fixpoint dict_set {V} (k : string) (v : V) (d : list (string * V))
  : list (string * V) :=
  match d with
  | [] => [(k, v)]
  | (k', v') :: d' =>
      if String.eqb k' k then (k, v) :: d' else (k', v') :: dict_set k v d'
  end.

(** [d.update(other)], also the meaning of [{**d, **other}]. *)
Definition dict_update {V} (d other : list (string * V)) : list (string * V) :=
  foldl (fun d kv => dict_set kv.1 kv.2 d) d other.

(** [Learner.format_info]. *)
Definition format_info (info : info_dict) : info_dict :=
  foldl (fun info kv => dict_set kv.1 (round kv.2 4) info) info
        (zip (keys info) (values info)).

(** **** Thresholding *)

(** [(torch.sigmoid(val_pred) ... > tresh).astype(int)] in [fit], on the
    probabilities that the sigmoid returned. *)
Definition val_label (probs : list Q) (tresh : Q) : list Z :=
  map (fun p => if Qlt_le_dec tresh p then 1%Z else 0%Z) probs.

(** [(np.array(y_pred) >= tresh).astype(int)] in [predict_labels]. *)
Definition y_label (y_pred : list Q) (tresh : Q) : list Z :=
  map (fun p => if Qlt_le_dec p tresh then 0%Z else 1%Z) y_pred.

(** [sum(xs)] *)
Definition sum (xs : list Z) : Z := foldl Z.add 0%Z xs.

(** [np.mean(xs)]; the lists averaged below are never empty in a run
    whose loaders are not. *)
Definition mean (xs : list Q) : Q :=
  foldl Qplus 0 xs / inject_Z (Z.of_nat (length xs)).

(** **** fit *)

(** One validation batch as [fit] sees it: the sigmoid of the model's
    output, the targets, and the loss on the batch. *)
Record val_batch : Type := ValBatch {
  vb_prob : list Q;
  vb_y : list Z;
  vb_loss : Q
}.

(** An entry of [val_record]. *)
Record val_entry : Type := ValEntry {
  ve_step : Z;
  ve_loss : Q;
  ve_f1_score : Q
}.

(** What a run does to its collaborators, in order. *)
Inductive event : Type :=
| Unfreeze (e : Z)
| TrainBatch (e step : Z)
| Save (e step : Z) (info : info_dict).

(** The local variables of [fit], the content of the info file at
    [best_info_path], and the events so far.  [train_record] receives
    the same values as [losses] and is never read. *)
Record fit_state : Type := FitState {
  step : Z;
  max_f1 : Q;
  no_improve_epoch : Z;
  no_improve_in_previous_epoch : bool;
  fine_tuning : bool;
  losses : list Q;
  val_record : list val_entry;
  best_info_file : option info_dict;
  trace : list event
}.

Definition initial_state (info_file : option info_dict) : fit_state :=
  FitState 0 0 0 false false [] [] info_file [].

Inductive loop_control : Type := Continue | Break.

(** [range(n)] *)
Fixpoint range_from (start : Z) (n : nat) : list Z :=
  match n with
  | O => []
  | S n' => start :: range_from (start + 1) n'
  end.

Definition range (n : Z) : list Z := range_from 0 (Z.to_nat n).

(** [self.save(info)]: the info file is overwritten. *)
Definition save (e : Z) (info : info_dict) (st : fit_state) : fit_state :=
  FitState (step st) (max_f1 st) (no_improve_epoch st)
    (no_improve_in_previous_epoch st) (fine_tuning st) (losses st)
    (val_record st) (Some info) (trace st ++ [Save e (step st) info]).

Section Fit.

(** The arguments of [fit]. *)
Variables (epoch eval_every : Z) (tresh : Q) (early_stop warmup_epoch : Z).

(** [f1_metric] of utils.py, taken as it comes. *)
Variable f1_metric : Z -> Z -> Z -> Q.

(** The collaborators: how many batches [iter(self.train_dl)] yields in
    an epoch, the loss of the training batch of a step, and what the
    model gives on [self.val_dl] when validated at a step. *)
Variable train_dl : Z -> nat.
Variable train_loss : Z -> Q.
Variable val_dl : Z -> list val_batch.

(** Lines 50-57: the early-stopping bookkeeping at the top of epoch [e]. *)
Definition early_stop_check (e : Z) (st : fit_state)
  : loop_control * fit_state :=
  if (warmup_epoch <=? e)%Z then
    if no_improve_in_previous_epoch st then
      let n := (no_improve_epoch st + 1)%Z in
      if (early_stop <=? n)%Z then
        (Break,
         FitState (step st) (max_f1 st) n (no_improve_in_previous_epoch st)
           (fine_tuning st) (losses st) (val_record st) (best_info_file st)
           (trace st))
      else
        (Continue,
         FitState (step st) (max_f1 st) n true (fine_tuning st) (losses st)
           (val_record st) (best_info_file st) (trace st))
    else
      (Continue,
       FitState (step st) (max_f1 st) 0 true (fine_tuning st) (losses st)
         (val_record st) (best_info_file st) (trace st))
  else (Continue, st).

(** Lines 58-60: the embedding is unfrozen once. *)
Definition unfreeze (e : Z) (st : fit_state) : fit_state :=
  if negb (fine_tuning st) && (warmup_epoch <=? e)%Z then
    FitState (step st) (max_f1 st) (no_improve_epoch st)
      (no_improve_in_previous_epoch st) true (losses st) (val_record st)
      (best_info_file st) (trace st ++ [Unfreeze e])
  else st.

(** Lines 78-91: [tp], [n_targs] and [n_preds] over the validation
    batches. *)
Definition validation_counts (batches : list val_batch) : Z * Z * Z :=
  foldl (fun '(tp, n_targs, n_preds) b =>
           let label := val_label (vb_prob b) tresh in
           ((tp + sum (map (fun yl => if (yl.1 + yl.2 =? 2)%Z then 1 else 0)
                           (zip (vb_y b) label)))%Z,
            (n_targs + sum (vb_y b))%Z,
            (n_preds + sum label)%Z))
        (0%Z, 0%Z, 0%Z) batches.

(** Lines 75-106: the validation pass and the checkpoint. *)
Definition evaluate (e : Z) (st : fit_state) : fit_state :=
  let batches := val_dl (step st) in
  let val_loss := map vb_loss batches in
  let '(tp, n_targs, n_preds) := validation_counts batches in
  let f1 := f1_metric tp n_targs n_preds in
  let st1 :=
    FitState (step st) (max_f1 st) (no_improve_epoch st)
      (no_improve_in_previous_epoch st) (fine_tuning st) (losses st)
      (val_record st ++ [ValEntry (step st) (mean val_loss) f1])
      (best_info_file st) (trace st) in
  let info :=
    format_info [ ("best_ep", PyInt e); ("step", PyInt (step st));
                  ("train_loss", PyFloat (mean (losses st)));
                  ("val_loss", PyFloat (mean val_loss));
                  ("f1_score", PyFloat f1) ] in
  if Qle_bool (max_f1 st1) f1 then
    let st2 := save e info st1 in
    FitState (step st2) f1 (no_improve_epoch st2) false (fine_tuning st2)
      (losses st2) (val_record st2) (best_info_file st2) (trace st2)
  else st1.

(** Lines 63-106: one training batch; [None] is the ZeroDivisionError of
    [step % eval_every]. *)
Definition train_step (e : Z) (st : fit_state) : option fit_state :=
  let step' := (step st + 1)%Z in
  let st1 :=
    FitState step' (max_f1 st) (no_improve_epoch st)
      (no_improve_in_previous_epoch st) (fine_tuning st)
      (losses st ++ [train_loss step']) (val_record st) (best_info_file st)
      (trace st ++ [TrainBatch e step']) in
  if (eval_every =? 0)%Z then None
  else if (step' mod eval_every =? 0)%Z then Some (evaluate e st1)
  else Some st1.

(** Lines 62-106: the batches of one epoch. *)
Fixpoint train_batches (n : nat) (e : Z) (st : fit_state)
  : option fit_state :=
  match n with
  | O => Some st
  | S n' => st1 ← train_step e st; train_batches n' e st1
  end.

Definition train_epoch (e : Z) (st : fit_state) : option fit_state :=
  train_batches (train_dl e) e (unfreeze e st).

(** Lines 49-106: the loop over the epochs, left by [break] or at the end
    of the range. *)
Fixpoint epochs_loop (es : list Z) (st : fit_state) : option fit_state :=
  match es with
  | [] => Some st
  | e :: es' =>
      match early_stop_check e st with
      | (Break, st1) => Some st1
      | (Continue, st1) => st2 ← train_epoch e st1; epochs_loop es' st2
      end
  end.

Definition fit_loop (info_file : option info_dict) : option fit_state :=
  epochs_loop (range epoch) (initial_state info_file).

(** [fit]: the loop, then [self.load()], which fails without a file. *)
Definition fit (info_file : option info_dict)
  : option (fit_state * info_dict) :=
  st ← fit_loop info_file; m_info ← best_info_file st; Some (st, m_info).

End Fit.

(** **** predict_labels *)

(** What a binary64 number denotes. *)
Definition value (x : float) : num :=
  match Prim2SF x with
  | S754_zero _ => PyFloat 0
  | S754_finite s m e =>
      PyFloat (inject_Z (if s then Z.neg m else Z.pos m) * 2 ^ e)
  | S754_infinity s => PyInf s
  | S754_nan => PyNaN
  end.

(** The conversion of an array index to binary64. *)
Definition float_of_nat (i : nat) : float :=
  of_uint63 (Uint63.of_Z (Z.of_nat i)).

(** The item [i] of the array that numpy fills for [np.arange]: the
    first two items are [start] and [start + step], and the others are
    [start + i * delta] for the difference [delta] of the first two,
    every operation rounding to binary64. *)
Definition arange_item (start step : float) (i : nat) : float :=
  match i with
  | O => start
  | S O => (start + step)%float
  | _ => (start + float_of_nat i * ((start + step) - start))%float
  end.

(** [np.arange(start, stop, step)] for Python floats: the length is the
    ceiling of [(stop - start) / step], computed in binary64.  [None] is
    the error raised for a zero step (ZeroDivisionError), for a length
    that is not a number or is infinite, and for one that does not fit
    the 64-bit index type; a length of at most 0 gives the empty array.
    The memory that a long array needs is not modelled. *)
Definition arange (start stop step : float) : option (list float) :=
  if is_zero step then None
  else
    match value ((stop - start) / step)%float with
    | PyFloat q =>
        let len := Qceiling q in
        if (len <? - 2 ^ 63)%Z || (2 ^ 63 - 1 <? len)%Z then None
        else Some (map (arange_item start step) (seq 0 (Z.to_nat len)))
    | _ => None
    end.

(** [len([x for x in xs if test(x)])] *)
Definition count_if {A} (test : A -> bool) (xs : list A) : Z :=
  Z.of_nat (length (List.filter test xs)).

(** [sklearn.metrics.f1_score(y_true, y_pred)] for binary labels with
    positive label 1: [2 tp / (2 tp + fp + fn)], and 0 where that is
    undefined (the warning is silenced by the caller). *)
Definition f1_score (y_true : list Z) (y_pred : list bool) : Q :=
  let pairs := zip y_true y_pred in
  let tp := count_if (fun tp => (tp.1 =? 1)%Z && tp.2) pairs in
  let fp := count_if (fun tp => negb (tp.1 =? 1)%Z && tp.2) pairs in
  let fn := count_if (fun tp => (tp.1 =? 1)%Z && negb tp.2) pairs in
  if (2 * tp + fp + fn =? 0)%Z then 0
  else inject_Z (2 * tp) / inject_Z (2 * tp + fp + fn).

(** [p > t] for a probability and a binary64 threshold: every number is
    greater than minus infinity, and none is greater than plus infinity
    or than a not-a-number. *)
Definition greater (p : Q) (t : float) : bool :=
  match value t with
  | PyFloat q => if Qlt_le_dec q p then true else false
  | PyInf negative => negative
  | _ => false
  end.

(** [p >= t], likewise. *)
Definition greater_equal (p : Q) (t : float) : bool :=
  match value t with
  | PyFloat q => if Qlt_le_dec p q then false else true
  | PyInf negative => negative
  | _ => false
  end.

(** [np.array(val_pred) > t] *)
Definition greater_than (val_pred : list Q) (t : float) : list bool :=
  map (fun p => greater p t) val_pred.

(** The variables [tr] and [tmp = [idx, current_f1, max_f1]] of
    [_choose_tr]. *)
Record choose_state : Type := ChooseState {
  tr : float;
  tmp0 : float;
  tmp1 : Q;
  tmp2 : Q
}.

(** Lines 140-146: the body of the loop for the candidate [cand]. *)
Definition choose_tr_body (val_pred : list Q) (val_true : list Z)
    (st : choose_state) (cand : float) : choose_state :=
  let cur := f1_score val_true (greater_than val_pred cand) in
  if Qlt_le_dec (tmp2 st) cur then ChooseState cand cand cur cur
  else ChooseState (tr st) cand cur (tmp2 st).

(** [_choose_tr], given what [predict_probs(is_test=False)] returned. *)
Definition _choose_tr (val_pred : list Q) (val_true : list Z)
    (min_tr max_tr tr_step : float) : option (float * Q) :=
  cands ← arange min_tr max_tr tr_step;
  let st := foldl (choose_tr_body val_pred val_true)
                  (ChooseState min_tr 0%float 0 0) cands in
  Some (tr st, tmp2 st).

(** [Learner.append_info]: [None] when there is no info file to load. *)
Definition append_info (dict : info_dict) (info_file : option info_dict)
  : option info_dict :=
  let dict := format_info dict in
  info ← info_file; Some (dict_update info dict).

(** The [tresh] argument of [predict_labels]: a number, or a list of
    floats. *)
Inductive tresh_arg : Type :=
| Fixed (t : Q)
| Search (l : list float).

(** [(np.array(y_pred) >= tresh).astype(int)] for the threshold that the
    search returned. *)
Definition y_label_at (y_pred : list Q) (tresh : float) : list Z :=
  map (fun p => if greater_equal p tresh then 1%Z else 0%Z) y_pred.

(** [predict_labels], given [(y_pred, y_true, ids)] of
    [predict_probs(is_test)] and [(val_pred, val_true)] of
    [predict_probs(False)]: the labels, and the info file afterwards.
    [None] is a raised error; a list that is not of three numbers cannot
    be unpacked into [_choose_tr]. *)
Definition predict_labels (y_pred : list Q) (y_true ids : list Z)
    (val_pred : list Q) (val_true : list Z)
    (tresh : tresh_arg) (info_file : option info_dict)
  : option ((list Z * list Z * list Z) * option info_dict) :=
  match tresh with
  | Fixed t => Some ((y_label y_pred t, y_true, ids), info_file)
  | Search [min_tr; max_tr; tr_step] =>
      '(t, max_f1) ← _choose_tr val_pred val_true min_tr max_tr tr_step;
      info ← append_info [("best_tr", value t); ("best_f1", PyFloat max_f1)]
                         info_file;
      Some ((y_label_at y_pred t, y_true, ids), Some info)
  | Search _ => None
  end.

(** **** record *)

(** A value of the dictionary that [record] writes: a run-info number,
    or anything else, as text. *)
Inductive cell : Type :=
| Number (n : num)
| Text (s : string).

(** What there is at a path of the file system. *)
Inductive path_kind : Type := Directory | RegularFile.

(** The paths that exist when [record] is called. *)
Definition file_system : Type := gmap string path_kind.

(** The calls of [record] that change the file system. *)
Inductive io_call : Type :=
| MakeDirs (path : string)
| Mkdir (path : string)
| DictToCsv (d : list (string * cell)) (path mode orient : string)
            (reverse : bool)
| Copy (src dst : string).

(** The errors that end [record] early. *)
Inductive error : Type :=
| FileExistsError
| FileNotFoundError
| NotADirectoryError
| IsADirectoryError
| AttributeError.

Definition models_dir : string := "./models".
Definition best_model_path : string := "./models/best_model.m".
Definition record_dir : string := "./notes".

(** [self.record_path], set by [__init__] for the modes 'test' and
    'run' only. *)
Definition record_path (mode : string) : option string :=
  if String.eqb mode "test" then Some "./notes/test_records.csv"
  else if String.eqb mode "run" then Some "./notes/records.csv"
  else None.

(** [record], given [vars(self.args)] with its [mode], the results of
    [str_date_time()] (a date and a time, without a slash) and
    [get_hash()], the file system and the content of the info file: the
    calls that were completed, in order, and the error that ended the
    method, if any.  [os.makedirs] with [exist_ok] fails only on a file
    in its way; [os.mkdir] fails on a path that exists and on a parent
    that is no directory; [torch.load] fails without an info file;
    [self.record_path] is no attribute for another mode; and
    [shutil.copy] fails without a model file.  [dict_to_csv] and
    [get_hash] are taken to return. *)
Definition record (mode : string) (args : list (string * cell))
    (date_time hash : string) (fs : file_system)
    (info_file : option info_dict)
  : list io_call * option error :=
  match fs !! record_dir with
  | Some RegularFile => ([], Some FileExistsError)
  | _ =>
  let subdir := models_dir +:+ "/" +:+ date_time in
  let subdir := if String.eqb mode "test" then subdir +:+ "_test" else subdir in
  match fs !! subdir, fs !! models_dir with
  | Some _, _ => ([MakeDirs record_dir], Some FileExistsError)
  | None, None => ([MakeDirs record_dir], Some FileNotFoundError)
  | None, Some RegularFile => ([MakeDirs record_dir], Some NotADirectoryError)
  | None, Some Directory =>
  let csvlog := subdir +:+ "/" +:+ "info.csv" in
  let param_dict := dict_update [] args in
  match info_file with
  | None => ([MakeDirs record_dir; Mkdir subdir], Some FileNotFoundError)
  | Some info =>
  let param_dict :=
    dict_update
      (dict_update [("hash", Text hash); ("subdir", Text subdir)] param_dict)
      (map (fun kv => (kv.1, Number kv.2)) info) in
  let written :=
    [ MakeDirs record_dir; Mkdir subdir;
      DictToCsv param_dict csvlog "w" "index" false ] in
  match record_path mode with
  | None => (written, Some AttributeError)
  | Some path =>
  let written :=
    (written ++ [DictToCsv param_dict path "a" "columns" true])%list in
  match fs !! best_model_path with
  | None => (written, Some FileNotFoundError)
  | Some Directory => (written, Some IsADirectoryError)
  | Some RegularFile =>
      ((written ++ [Copy best_model_path subdir])%list, None)
  end end end end end.

End Learner.

(** *** preprocess.py *)

Module Preprocess.

(** The text column of a dataset: the token list of each example. *)
Definition column : Type := list (list string).

(** [collections.Counter.update(x)] for a list of tokens. *)
Definition counter_update (counter : gmap string nat) (x : list string)
  : gmap string nat :=
  foldl (fun c tok => <[tok := S (default 0%nat (c !! tok))]> c) counter x.

(** The vocabulary object that torchtext's [Vocab] builds. *)
Record vocab : Type := Vocab {
  freqs : gmap string nat;
  itos : list string;
  stoi : gmap string nat
}.

(** The special tokens of a [data.Field] with the default [unk_token]
    and [pad_token] and no [init_token] or [eos_token]. *)
Definition specials : list string := ["<unk>"; "<pad>"].

Definition by_word (a b : string * nat) : Prop := Is_true (String.leb a.1 b.1).
Definition by_freq_desc (a b : string * nat) : Prop := (b.2 <= a.2)%nat.

#[local] Instance by_word_dec : RelDecision by_word.
Proof. intros a b. unfold by_word. apply _. Defined.

#[local] Instance by_freq_desc_dec : RelDecision by_freq_desc.
Proof. intros a b. unfold by_freq_desc. apply _. Defined.

(** Python's [sorted] and [list.sort], which are stable: [R a b] says
    that the key of [a] is not after the key of [b], and of two items
    with equal keys the one that came first stays first. *)
Fixpoint insert_sorted {A} (R : relation A) `{!RelDecision R}
    (x : A) (l : list A) : list A :=
  match l with
  | [] => [x]
  | y :: l' => if decide (R x y) then x :: l else y :: insert_sorted R x l'
  end.

Definition sorted {A} (R : relation A) `{!RelDecision R} (l : list A)
  : list A :=
  foldr (insert_sorted R) [] l.

(** The loop of [Vocab.__init__] with [max_size=None]: it leaves at the
    first word that is not frequent enough. *)
Fixpoint take_frequent (min_freq : nat) (l : list (string * nat))
  : list string :=
  match l with
  | [] => []
  | (word, freq) :: l' =>
      if (freq <? min_freq)%nat then [] else word :: take_frequent min_freq l'
  end.

(** [{tok: i for i, tok in enumerate(itos)}] *)
Definition enumerate_index (itos : list string) : gmap string nat :=
  foldl (fun d it => <[it.2 := it.1]> d) ∅ (zip (seq 0 (length itos)) itos).

(** torchtext's [Vocab(counter, specials=specials, min_freq=min_freq)]:
    the specials first, then the other words by decreasing frequency,
    alphabetically among equals. *)
Definition Vocab_init (counter : gmap string nat) (min_freq : nat) : vocab :=
  let min_freq := Nat.max min_freq 1 in
  let counter' := foldl (fun c tok => delete tok c) counter specials in
  let words_and_frequencies :=
    sorted by_freq_desc (sorted by_word (map_to_list counter')) in
  let itos := (specials ++ take_frequent min_freq words_and_frequencies)%list in
  Vocab counter itos (enumerate_index itos).

(** torchtext's [Field.build_vocab] with a [min_freq], on the columns of
    this field in the datasets it is given. *)
Definition build_vocab (sources : list column) (min_freq : nat) : vocab :=
  let counter :=
    foldl (fun c data => foldl counter_update c data) ∅ sources in
  Vocab_init counter min_freq.

Section Data.

(** [choose_tokenizer(tokenizer_name)] *)
Variable tokenizer : string -> list string.

(** [MyTabularDataset] of my_torchtext.py, which is not among the
    sources: the text column of the dataset it loads from the rows of a
    CSV file, for a text field with the given tokenizer. *)
Variable MyTabularDataset : (string -> list string) -> list string -> column.

(** [Data.preprocess], given the rows of the train and of the test CSV:
    the text vocabulary, from lines 39-47. *)
Definition preprocess (train_csv test_csv : list string) : vocab :=
  let train := MyTabularDataset tokenizer train_csv in
  let test := MyTabularDataset tokenizer test_csv in
  build_vocab [train; test] 1.

End Data.

(** torchtext's own [TabularDataset]: every row goes through the
    tokenizer of the field. *)
Definition TabularDataset (tokenize : string -> list string)
    (rows : list string) : column :=
  map tokenize rows.

End Preprocess.

(** ** Part II: properties *)

Module TokenizersSpec.
Import PyStr Tokenizers.

(** **** Python string primitives *)

Lemma split_nonempty sep s : split sep s <> [].
Proof.
  destruct s as [|c s]; simpl; [done|].
  destruct (Ascii.eqb c sep); [done|]. by destruct (split sep s).
Qed.

Lemma join_cons sep w ws :
  ws <> [] -> join sep (w :: ws) = w +:+ sep +:+ join sep ws.
Proof. by destruct ws. Qed.

Lemma join_split sep s : join (String sep "") (split sep s) = s.
Proof.
  induction s as [|c s IH]; simpl; [done|].
  destruct (Ascii.eqb_spec c sep) as [->|Hne].
  - rewrite join_cons by apply split_nonempty. simpl. by rewrite IH.
  - pose proof (split_nonempty sep s) as Hs.
    destruct (split sep s) as [|w ws]; [done|].
    destruct ws as [|w' ws]; simpl in *; by rewrite <- IH.
Qed.

Lemma split_app sep a b :
  split sep (a +:+ String sep b) = (split sep a ++ split sep b)%list.
Proof.
  induction a as [|c a IH]; simpl.
  - by rewrite Ascii.eqb_refl.
  - destruct (Ascii.eqb c sep); [by rewrite IH|].
    rewrite IH. pose proof (split_nonempty sep a).
    by destruct (split sep a).
Qed.

Lemma split_length sep s :
  length (split sep s) = S (count_occ ascii_dec (chars s) sep).
Proof.
  induction s as [|c s IH]; simpl; [done|].
  destruct (Ascii.eqb_spec c sep) as [->|Hne].
  - destruct (ascii_dec sep sep); [|done]. simpl. by rewrite IH.
  - destruct (ascii_dec c sep); [done|].
    pose proof (split_nonempty sep s).
    destruct (split sep s); [done|]. by rewrite <- IH.
Qed.

Lemma split_no_sep sep s :
  Forall (fun w => ~ In sep (chars w)) (split sep s).
Proof.
  induction s as [|c s IH]; simpl.
  - constructor; [|constructor]. simpl. tauto.
  - destruct (Ascii.eqb_spec c sep) as [->|Hne].
    + constructor; [simpl; tauto | done].
    + destruct (split sep s) as [|w ws]; [repeat constructor; simpl; intuition|].
      inversion IH; subst. constructor; [|done].
      simpl. intros [?|?]; [done|]. tauto.
Qed.

Lemma chars_app a b : chars (a +:+ b) = (chars a ++ chars b)%list.
Proof. induction a; simpl; [done|]. f_equal. done. Qed.

(** **** WhitespaceTokenizer *)

(** C8. The whitespace tokenizer splits on the literal space with no
    normalisation and no filtering: a text with [n] spaces yields [n + 1]
    tokens, none of which contains a space, two consecutive spaces yield
    an empty token between them, and joining the tokens with one space
    gives back the text.  The round trip holds for every text, hence in
    particular for texts with single-space separators and no leading or
    trailing space. *)
Theorem C8_whitespace_roundtrip (text : string) :
  length (WhitespaceTokenizer text) = S (count_occ ascii_dec (chars text) " "%char)
  /\ Forall (fun w => ~ In " "%char (chars w)) (WhitespaceTokenizer text)
  /\ (forall a b : string,
        WhitespaceTokenizer (a +:+ "  " +:+ b)
        = (WhitespaceTokenizer a ++ "" :: WhitespaceTokenizer b)%list)
  /\ join " " (WhitespaceTokenizer text) = text.
Proof.
  unfold WhitespaceTokenizer. repeat split.
  - apply split_length.
  - apply split_no_sep.
  - intros a b. change (a +:+ "  " +:+ b) with (a +:+ String " " (String " " b)).
    rewrite split_app. simpl. done.
  - apply join_split.
Qed.

(** **** CustomTokenizer *)

(** No character of [s] is in the punctuation class. *)
Definition punct_free (s : string) : Prop :=
  Forall (fun c => is_punct c = false) (chars s).

(** What the specification says happens to one space-delimited piece. *)
Definition split_at_first_punct (ss : string) (toks : list string) : Prop :=
  (punct_free ss /\ toks = [ss])
  \/ (exists pre c suf,
        ss = pre +:+ String c suf /\ punct_free pre /\ is_punct c = true
        /\ toks = List.filter (fun t => negb (String.eqb t ""))
                    [pre; String c ""; suf]).

Lemma is_punct_spec c :
  is_punct c = true <-> In c [","; "!"; "."; "?"; "("; ")"]%char.
Proof.
  unfold is_punct. rewrite existsb_exists. simpl. split.
  - intros (x & Hx & Heq). apply Ascii.eqb_eq in Heq. subst. tauto.
  - intros H. exists c. rewrite Ascii.eqb_refl. tauto.
Qed.

Lemma nonempty_test t : (0 <? String.length t)%nat = negb (String.eqb t "").
Proof. by destruct t. Qed.

Lemma slice_from_0 s : slice_from 0 s = s.
Proof.
  unfold slice_from. rewrite Nat.sub_0_r.
  induction s as [|c s IH]; simpl; [done|]. by rewrite IH.
Qed.

Lemma slice_from_S n c s : slice_from (S n) (String c s) = slice_from n s.
Proof. reflexivity. Qed.

Lemma punct_search_None ss : punct_search ss = None -> punct_free ss.
Proof.
  unfold punct_free. induction ss as [|c ss IH]; simpl; [constructor|].
  destruct (is_punct c) eqn:Hc; [done|].
  destruct (punct_search ss); [done|]. intros _. constructor; auto.
Qed.

Lemma punct_search_Some ss start :
  punct_search ss = Some start ->
  exists pre c suf,
    ss = pre +:+ String c suf /\ punct_free pre /\ is_punct c = true
    /\ slice_to start ss = pre /\ char_at start ss = String c ""
    /\ slice_from (S start) ss = suf.
Proof.
  revert start. induction ss as [|c ss IH]; simpl; [done|]. intros start.
  destruct (is_punct c) eqn:Hc.
  - intros [= <-]. exists "", c, ss. repeat split; try done.
    + constructor.
    + rewrite slice_from_S. apply slice_from_0.
  - destruct (punct_search ss) as [n|] eqn:Hs; [|done]. intros [= <-].
    destruct (IH n eq_refl) as (pre & c' & suf & -> & Hpre & Hc' & H1 & H2 & H3).
    exists (String c pre), c', suf. repeat split; try done.
    + constructor; done.
    + unfold slice_to in *. simpl. by rewrite H1.
Qed.

Lemma ss_tokens_spec ss : split_at_first_punct ss (ss_tokens ss).
Proof.
  unfold ss_tokens. destruct (punct_search ss) as [start|] eqn:Hs.
  - right. destruct (punct_search_Some _ _ Hs)
      as (pre & c & suf & Hss & Hpre & Hc & -> & -> & ->).
    exists pre, c, suf. repeat split; try done.
    apply filter_ext. intros t. apply nonempty_test.
  - left. split; [by apply punct_search_None | done].
Qed.

Lemma foldl_extend {A B} (f : A -> list B) (l : list A) (acc : list B) :
  foldl (fun tokens x => tokens ++ f x)%list acc l
  = (acc ++ concat (map f l))%list.
Proof.
  revert acc. induction l as [|x l IH]; intros acc; simpl.
  - by rewrite app_nil_r.
  - rewrite IH. by rewrite <- app_assoc.
Qed.

(** C4. For every text, the punctuation-aware tokenizer is the
    concatenation, over the space-delimited pieces in order, of the tokens
    of each piece, where a piece without a character of [,!.?()] is one
    token, and any other piece is cut at its first such character into
    prefix, that character, and suffix, the empty ones dropped. *)
Theorem C4_custom_tokenizer (text : string) :
  (exists tokss : list (list string),
     Forall2 split_at_first_punct (split " " text) tokss
     /\ CustomTokenizer text = concat tokss)
  /\ CustomTokenizer "hello,world" = ["hello"; ","; "world"]
  /\ CustomTokenizer "no punctuation here" = ["no"; "punctuation"; "here"].
Proof.
  split; [|split; reflexivity].
  exists (map ss_tokens (split " " text)). split.
  - induction (split " " text); simpl; constructor; auto using ss_tokens_spec.
  - unfold CustomTokenizer. by rewrite foldl_extend.
Qed.

(** **** lower_spacy and LowerSpacy *)

(** C6. Evaluation of both lowercased-linguistic tokenizers: the function
    lowercases before tokenizing; the callable object returns a closure
    that tokenizes its argument as it is.  They differ on every text that
    the tokenizer does not treat like its lowercase form, as on "Hello"
    with a tokenizer that keeps a word as one token. *)
Theorem C6_LowerSpacy_does_not_lowercase :
  (forall tok x, lower_spacy tok x = tok (lower x))
  /\ (forall tok text x, LowerSpacy tok text x = tok x)
  /\ (forall tok text x,
        tok x <> tok (lower x) -> LowerSpacy tok text x <> lower_spacy tok x)
  /\ lower_spacy WhitespaceTokenizer "Hello" = ["hello"]
  /\ LowerSpacy WhitespaceTokenizer "Hello" "Hello" = ["Hello"].
Proof. repeat split. intros tok text x Hne. exact Hne. Qed.

End TokenizersSpec.

Module EnsModelListSpec.
Import EnsModelList.

(** The fourteen names of the registry. *)
Definition registry_keys : list string :=
  [ "wnews"; "glove"; "paragram"; "gnews"; "gnews_num"; "wnews_test";
    "glove_test"; "glove_cv"; "paragram_cv"; "wnews_cv"; "gnews_cv";
    "gnews_num_cv"; "gnews_ph_cv"; "gnews_ph_num_cv" ].

Lemma resolve_Value key entry :
  resolve key = Value entry <-> model_dict !! key = Some entry.
Proof.
  unfold resolve. destruct (model_dict !! key); split; congruence.
Qed.

Lemma resolve_KeyError key :
  resolve key = KeyError key <-> model_dict !! key = None.
Proof.
  unfold resolve. destruct (model_dict !! key); split; congruence.
Qed.

(** C9. The registry has exactly fourteen entries, under fourteen distinct
    names; each of these names resolves to a pair of non-empty strings,
    and every other key fails with [KeyError]. *)
Theorem C9_registry_resolution :
  size model_dict = 14%nat
  /\ NoDup registry_keys /\ length registry_keys = 14%nat
  /\ (forall key, key ∈ registry_keys ->
        exists run_id args,
          resolve key = Value (run_id, args) /\ run_id <> "" /\ args <> "")
  /\ (forall key, key ∉ registry_keys -> resolve key = KeyError key).
Proof.
  split; [by vm_compute|].
  split; [apply (bool_decide_unpack (NoDup registry_keys)); by vm_compute|].
  split; [done|]. split.
  - intros key Hkey. unfold registry_keys in Hkey.
    repeat (apply elem_of_cons in Hkey as [->|Hkey];
            [eexists _, _; split; [vm_compute; reflexivity|done]|]).
    by apply elem_of_nil in Hkey.
  - intros key Hkey. apply resolve_KeyError.
    unfold registry_keys in Hkey. rewrite !not_elem_of_cons in Hkey.
    unfold model_dict, dict_literal, model_entries. cbn [foldl fst snd].
    rewrite !lookup_insert_ne by (intros <-; tauto). apply lookup_empty.
Qed.

End EnsModelListSpec.

Module LearnerSpec.
Import Learner.

Local Open Scope Q_scope.

(** **** Thresholding at the boundary *)

Lemma val_label_one p tresh : val_label [p] tresh = [1%Z] <-> tresh < p.
Proof.
  unfold val_label. simpl. destruct (Qlt_le_dec tresh p) as [H|H].
  - tauto.
  - split; [done|]. intros H'. exfalso. eapply Qlt_not_le; eauto.
Qed.

Lemma y_label_one p tresh : y_label [p] tresh = [1%Z] <-> tresh <= p.
Proof.
  unfold y_label. simpl. destruct (Qlt_le_dec p tresh) as [H|H].
  - split; [done|]. intros H'. exfalso. eapply Qlt_not_le; eauto.
  - tauto.
Qed.

(** C10. The validation pass of [fit] labels a probability positive when
    it is strictly above the threshold, [predict_labels] with a numeric
    threshold when it is at or above it; the two labels differ exactly
    when the probability equals the threshold, where [fit] says 0 and
    [predict_labels] says 1, as for the probability 1/2 (the sigmoid of
    0) at the threshold 0.5.  A positive example at the threshold is then
    no predicted positive in the counts of [fit]. *)
Theorem C10_threshold_boundary :
  (forall p tresh, val_label [p] tresh = [1%Z] <-> tresh < p)
  /\ (forall p tresh y_true ids val_pred val_true info_file,
        exists labels,
          predict_labels [p] y_true ids val_pred val_true (Fixed tresh) info_file
          = Some ((labels, y_true, ids), info_file)
          /\ (labels = [1%Z] <-> tresh <= p))
  /\ (forall p tresh,
        val_label [p] tresh <> y_label [p] tresh <-> p == tresh)
  /\ (forall p tresh,
        p == tresh -> val_label [p] tresh = [0%Z] /\ y_label [p] tresh = [1%Z])
  /\ (forall p tresh loss,
        p == tresh ->
        validation_counts tresh [ValBatch [p] [1%Z] loss] = (0, 1, 0)%Z)
  /\ val_label [1 # 2] 0.5 = [0%Z] /\ y_label [1 # 2] 0.5 = [1%Z].
Proof.
  split; [apply val_label_one|]. split.
  { intros. eexists. split; [reflexivity|]. apply y_label_one. }
  assert (Hb : forall p tresh,
             p == tresh -> val_label [p] tresh = [0%Z] /\ y_label [p] tresh = [1%Z]).
  { intros p tresh Heq. unfold val_label, y_label. simpl.
    destruct (Qlt_le_dec tresh p) as [H|H];
      [rewrite Heq in H; by apply Qlt_irrefl in H|].
    destruct (Qlt_le_dec p tresh) as [H'|H'];
      [rewrite Heq in H'; by apply Qlt_irrefl in H'|]. done. }
  split; [|split; [exact Hb|split; [|split; reflexivity]]].
  - intros p tresh. split.
    + unfold val_label, y_label. simpl. intros Hne.
      destruct (Qlt_le_dec tresh p) as [H|H], (Qlt_le_dec p tresh) as [H'|H'];
        try done.
      * exfalso. eapply Qlt_irrefl, Qlt_trans; eauto.
      * by apply Qle_antisym.
    + intros Heq. destruct (Hb p tresh Heq) as [-> ->]. done.
  - intros p tresh loss Heq. unfold validation_counts.
    cbn [foldl vb_prob vb_y]. by destruct (Hb p tresh Heq) as [-> _].
Qed.

(** The probability 1/2 at the threshold 0.5. *)
Lemma C10_threshold_boundary_witness :
  val_label [1 # 2] (5 # 10) = [0%Z] /\ y_label [1 # 2] (5 # 10) = [1%Z].
Proof.
  apply (proj1 (proj2 (proj2 (proj2 C10_threshold_boundary))) (1 # 2) (5 # 10)).
  reflexivity.
Defined.

(** **** format_info and rounding *)

Lemma dict_set_head {V} k (v v0 : V) d : dict_set k v ((k, v0) :: d) = (k, v) :: d.
Proof. simpl. by rewrite String.eqb_refl. Qed.

Lemma dict_set_app_fresh {V} k (v : V) d1 d2 :
  k ∉ keys d1 -> dict_set k v (d1 ++ d2) = (d1 ++ dict_set k v d2)%list.
Proof.
  induction d1 as [|[k' v'] d1 IH]; simpl; [done|].
  rewrite not_elem_of_cons. intros [Hne Hnotin].
  destruct (String.eqb_spec k' k); [congruence|]. by rewrite IH.
Qed.

Lemma zip_keys_values {V} (d : list (string * V)) : zip (keys d) (values d) = d.
Proof. unfold keys, values. induction d as [|[k v] d IH]; simpl; congruence. Qed.

Lemma keys_map_value {V W} (f : V -> W) (d : list (string * V)) :
  keys (map (fun kv => (kv.1, f kv.2)) d) = keys d.
Proof. unfold keys. induction d as [|[k v] d IH]; simpl; congruence. Qed.

(** Assigning to every key of a dictionary, in order, a function of its
    old value maps that function over the values. *)
Lemma foldl_dict_set_map {V} (f : V -> V) (done rest : list (string * V)) :
  NoDup (keys (done ++ rest)) ->
  foldl (fun d kv => dict_set kv.1 (f kv.2) d)
        (map (fun kv => (kv.1, f kv.2)) done ++ rest)%list rest
  = map (fun kv => (kv.1, f kv.2)) (done ++ rest).
Proof.
  revert done. induction rest as [|[k v] rest IH]; intros done Hnd; simpl.
  - by rewrite !app_nil_r.
  - rewrite dict_set_app_fresh, dict_set_head.
    + specialize (IH (done ++ [(k, v)])%list).
      rewrite map_app, <- !app_assoc in IH. simpl in IH. by apply IH.
    + rewrite keys_map_value. unfold keys in *. rewrite map_app in Hnd.
      apply NoDup_app in Hnd as (_ & Hdisj & _). intros Hin.
      apply (Hdisj k Hin). simpl. left.
Qed.

Lemma format_info_map (info : info_dict) :
  NoDup (keys info) ->
  format_info info = map (fun kv => (kv.1, round kv.2 4)) info.
Proof.
  intros Hnd. unfold format_info. rewrite zip_keys_values.
  apply (foldl_dict_set_map (fun v => round v 4) [] info Hnd).
Qed.








Lemma dict_set_elem {V} k (v : V) d : (k, v) ∈ dict_set k v d.
Proof.
  induction d as [|[k' v'] d IH]; simpl; [by left|].
  destruct (String.eqb k' k); [by left|by right].
Qed.

Lemma dict_set_elem_other {V} k (v : V) k' v' d :
  k' <> k -> (k', v') ∈ d -> (k', v') ∈ dict_set k v d.
Proof.
  intros Hne. induction d as [|[k0 v0] d IH]; simpl; [by intros ?%elem_of_nil|].
  rewrite elem_of_cons. intros [[= <- <-]|Hin].
  - destruct (String.eqb_spec k' k); [done|by left].
  - destruct (String.eqb k0 k); right; auto.
Qed.

Lemma dict_update_elem_old {V} (kv : string * V) d other :
  kv.1 ∉ keys other -> kv ∈ d -> kv ∈ dict_update d other.
Proof.
  unfold dict_update. revert d.
  induction other as [|[k v] other IH]; intros d Hnot Hin; simpl; [done|].
  simpl in Hnot. rewrite not_elem_of_cons in Hnot. destruct Hnot as [Hne Hnot].
  apply IH; [done|]. destruct kv as [k' v']. by apply dict_set_elem_other.
Qed.

(** After [d.update(other)] the dictionary has every item of [other]. *)
Lemma dict_update_elem {V} (kv : string * V) d other :
  NoDup (keys other) -> kv ∈ other -> kv ∈ dict_update d other.
Proof.
  unfold dict_update. revert d.
  induction other as [|[k v] other IH]; intros d Hnd Hin; [by apply elem_of_nil in Hin|].
  simpl in Hnd. apply NoDup_cons in Hnd as [Hfresh Hnd].
  apply elem_of_cons in Hin as [->|Hin]; simpl.
  - apply (dict_update_elem_old (k, v)); [done|apply dict_set_elem].
  - by apply IH.
Qed.


(** The dated directory of a run. *)
Definition subdir_of (mode date_time : string) : string :=
  let subdir := models_dir +:+ "/" +:+ date_time in
  if String.eqb mode "test" then subdir +:+ "_test" else subdir.

(** The dictionary that [record] writes to both tables. *)
Definition param_dict_of (mode : string) (args : list (string * cell))
    (date_time hash : string) (info : info_dict) : list (string * cell) :=
  dict_update
    (dict_update [("hash", Text hash);
                  ("subdir", Text (subdir_of mode date_time))]
                 (dict_update [] args))
    (map (fun kv => (kv.1, Number kv.2)) info).

(** [record], once [./notes] is there. *)
Lemma record_unfold mode args date_time hash fs info_file :
  fs !! record_dir <> Some RegularFile ->
  let subdir := subdir_of mode date_time in
  record mode args date_time hash fs info_file
  = match fs !! subdir, fs !! models_dir with
    | Some _, _ => ([MakeDirs record_dir], Some FileExistsError)
    | None, None => ([MakeDirs record_dir], Some FileNotFoundError)
    | None, Some RegularFile =>
        ([MakeDirs record_dir], Some NotADirectoryError)
    | None, Some Directory =>
        match info_file with
        | None =>
            ([MakeDirs record_dir; Mkdir subdir], Some FileNotFoundError)
        | Some info =>
            let d := param_dict_of mode args date_time hash info in
            let csvlog := subdir +:+ "/" +:+ "info.csv" in
            match record_path mode with
            | None =>
                ([ MakeDirs record_dir; Mkdir subdir;
                   DictToCsv d csvlog "w" "index" false ],
                 Some AttributeError)
            | Some path =>
                match fs !! best_model_path with
                | None =>
                    ([ MakeDirs record_dir; Mkdir subdir;
                       DictToCsv d csvlog "w" "index" false;
                       DictToCsv d path "a" "columns" true ],
                     Some FileNotFoundError)
                | Some Directory =>
                    ([ MakeDirs record_dir; Mkdir subdir;
                       DictToCsv d csvlog "w" "index" false;
                       DictToCsv d path "a" "columns" true ],
                     Some IsADirectoryError)
                | Some RegularFile =>
                    ([ MakeDirs record_dir; Mkdir subdir;
                       DictToCsv d csvlog "w" "index" false;
                       DictToCsv d path "a" "columns" true;
                       Copy best_model_path subdir ], None)
                end
            end
        end
    end.
Proof.
  intros Hnotes subdir. unfold record.
  destruct (fs !! record_dir) as [[]|]; [|done|]; reflexivity.
Qed.



(** **** The training loop *)

(** The epoch an event belongs to. *)
Definition event_epoch (ev : event) : Z :=
  match ev with
  | Unfreeze e => e
  | TrainBatch e _ => e
  | Save e _ _ => e
  end.

Definition is_save (ev : event) : bool :=
  match ev with
  | Save _ _ _ => true
  | _ => false
  end.

(** A checkpoint was saved during epoch [e]: some validation of that
    epoch reached the best F1 of the run so far. *)
Definition improved_in (e : Z) (tr : list event) : Prop :=
  exists step info, Save e step info ∈ tr.

(** What the work of epoch [e] may do to the early-stopping variables:
    it adds events of epoch [e], leaves the counter alone, and clears the
    flag exactly when it saves. *)
Definition epoch_effect (e : Z) (st st' : fit_state) : Prop :=
  exists evs,
    trace st' = (trace st ++ evs)%list
    /\ Forall (fun ev => event_epoch ev = e) evs
    /\ no_improve_epoch st' = no_improve_epoch st
    /\ no_improve_in_previous_epoch st'
       = no_improve_in_previous_epoch st && negb (existsb is_save evs).

Lemma epoch_effect_refl e st : epoch_effect e st st.
Proof.
  exists []. rewrite app_nil_r. simpl. rewrite andb_true_r. by repeat split.
Qed.

Lemma epoch_effect_trans e st1 st2 st3 :
  epoch_effect e st1 st2 -> epoch_effect e st2 st3 -> epoch_effect e st1 st3.
Proof.
  intros (evs1 & Ht1 & He1 & Hc1 & Hf1) (evs2 & Ht2 & He2 & Hc2 & Hf2).
  exists (evs1 ++ evs2)%list. repeat split.
  - by rewrite Ht2, Ht1, <- app_assoc.
  - by apply Forall_app.
  - congruence.
  - rewrite Hf2, Hf1, existsb_app, negb_orb. by rewrite andb_assoc.
Qed.

(** ***** The running best F1 *)

(** The steps at which [save] was called, in order. *)
Definition saved_steps (tr : list event) : list Z :=
  omap (fun ev => match ev with Save _ step _ => Some step | _ => None end) tr.

(** The best F1 after the validations [vr], starting from [best]: a later
    validation replaces the best when it is at least as good. *)
Definition running_best (best : Q) (vr : list val_entry) : Q :=
  foldl (fun b v => if Qle_bool b (ve_f1_score v) then ve_f1_score v else b)
        best vr.

(** The validations that are at least as good as everything before them
    and as [best]. *)
Fixpoint improving (best : Q) (vr : list val_entry) : list val_entry :=
  match vr with
  | [] => []
  | v :: vr' =>
      if Qle_bool best (ve_f1_score v) then v :: improving (ve_f1_score v) vr'
      else improving best vr'
  end.

Lemma running_best_snoc best vr v :
  running_best best (vr ++ [v])
  = if Qle_bool (running_best best vr) (ve_f1_score v) then ve_f1_score v
    else running_best best vr.
Proof. unfold running_best. by rewrite foldl_app. Qed.

Lemma improving_snoc best vr v :
  improving best (vr ++ [v])
  = (improving best vr
     ++ if Qle_bool (running_best best vr) (ve_f1_score v) then [v] else [])%list.
Proof.
  revert best. induction vr as [|w vr IH]; intros best; simpl.
  - destruct (Qle_bool best (ve_f1_score v)); done.
  - destruct (Qle_bool best (ve_f1_score w)); simpl; by rewrite IH.
Qed.

(** The running best is an upper bound of what it has seen. *)
Lemma running_best_upper best vr :
  best <= running_best best vr
  /\ Forall (fun v => ve_f1_score v <= running_best best vr) vr.
Proof.
  induction vr as [|v vr IH] using rev_ind.
  - split; [apply Qle_refl|constructor].
  - destruct IH as [IH1 IH2]. rewrite running_best_snoc.
    destruct (Qle_bool (running_best best vr) (ve_f1_score v)) eqn:Hc.
    + apply Qle_bool_iff in Hc. split; [by eapply Qle_trans|].
      apply Forall_app. split; [|repeat constructor; apply Qle_refl].
      eapply Forall_impl; [exact IH2|]. intros w Hw. simpl in *.
      by eapply Qle_trans.
    + split; [done|]. apply Forall_app. split; [done|]. repeat constructor.
      destruct (Qlt_le_dec (running_best best vr) (ve_f1_score v)) as [Hlt|Hle];
        [|done].
      apply Qlt_le_weak, Qle_bool_iff in Hlt. congruence.
Qed.

Lemma saved_steps_snoc_save tr e step info :
  saved_steps (tr ++ [Save e step info]) = (saved_steps tr ++ [step])%list.
Proof. unfold saved_steps. by rewrite omap_app. Qed.

Lemma saved_steps_snoc_other tr ev :
  is_save ev = false -> saved_steps (tr ++ [ev]) = saved_steps tr.
Proof.
  intros H. unfold saved_steps. rewrite omap_app. destruct ev; try done;
    simpl; by rewrite app_nil_r.
Qed.

Section FitProofs.

Variables (epoch eval_every : Z) (tresh : Q) (early_stop warmup_epoch : Z).
Variable f1_metric : Z -> Z -> Z -> Q.
Variable train_dl : Z -> nat.
Variable train_loss : Z -> Q.
Variable val_dl : Z -> list val_batch.

Local Abbreviation check := (early_stop_check early_stop warmup_epoch).
Local Abbreviation evaluate' := (evaluate tresh f1_metric val_dl).
Local Abbreviation train_step' :=
  (train_step eval_every tresh f1_metric train_loss val_dl).
Local Abbreviation train_batches' :=
  (train_batches eval_every tresh f1_metric train_loss val_dl).
Local Abbreviation train_epoch' :=
  (train_epoch eval_every tresh warmup_epoch f1_metric train_dl train_loss
     val_dl).
Local Abbreviation epochs_loop' :=
  (epochs_loop eval_every tresh early_stop warmup_epoch f1_metric train_dl
     train_loss val_dl).
Local Abbreviation fit_loop' :=
  (fit_loop epoch eval_every tresh early_stop warmup_epoch f1_metric train_dl
     train_loss val_dl).

(** The F1 score and the info record of the validation at a state. *)
Definition eval_f1 (st : fit_state) : Q :=
  let '(tp, n_targs, n_preds) := validation_counts tresh (val_dl (step st)) in
  f1_metric tp n_targs n_preds.

Definition eval_info (e : Z) (st : fit_state) : info_dict :=
  format_info [ ("best_ep", PyInt e); ("step", PyInt (step st));
                ("train_loss", PyFloat (mean (losses st)));
                ("val_loss", PyFloat (mean (map vb_loss (val_dl (step st)))));
                ("f1_score", PyFloat (eval_f1 st)) ].

Definition eval_entry (st : fit_state) : val_entry :=
  ValEntry (step st) (mean (map vb_loss (val_dl (step st)))) (eval_f1 st).

(** The two outcomes of a validation, spelled out. *)
Lemma evaluate_cases e st :
  (Qle_bool (max_f1 st) (eval_f1 st) = true
   /\ evaluate' e st
      = FitState (step st) (eval_f1 st) (no_improve_epoch st) false
          (fine_tuning st) (losses st) (val_record st ++ [eval_entry st])
          (Some (eval_info e st))
          (trace st ++ [Save e (step st) (eval_info e st)]))
  \/ (Qle_bool (max_f1 st) (eval_f1 st) = false
      /\ evaluate' e st
         = FitState (step st) (max_f1 st) (no_improve_epoch st)
             (no_improve_in_previous_epoch st) (fine_tuning st) (losses st)
             (val_record st ++ [eval_entry st]) (best_info_file st)
             (trace st)).
Proof.
  unfold evaluate, eval_info, eval_entry, eval_f1.
  destruct (validation_counts tresh (val_dl (step st))) as [[tp n_targs] n_preds].
  simpl. destruct (Qle_bool (max_f1 st) (f1_metric tp n_targs n_preds));
    [left|right]; done.
Qed.

(** The state after the bookkeeping of a training batch, before any
    validation. *)
Definition after_batch (e : Z) (st : fit_state) : fit_state :=
  FitState (step st + 1) (max_f1 st) (no_improve_epoch st)
    (no_improve_in_previous_epoch st) (fine_tuning st)
    (losses st ++ [train_loss (step st + 1)%Z]) (val_record st)
    (best_info_file st) (trace st ++ [TrainBatch e (step st + 1)%Z]).

Lemma train_step_cases e st st' :
  train_step' e st = Some st' ->
  eval_every <> 0%Z
  /\ (((step st + 1) mod eval_every = 0)%Z /\ st' = evaluate' e (after_batch e st)
      \/ ((step st + 1) mod eval_every <> 0)%Z /\ st' = after_batch e st).
Proof.
  unfold train_step. fold (after_batch e st).
  destruct (Z.eqb_spec eval_every 0); [done|].
  destruct (Z.eqb_spec ((step st + 1) mod eval_every) 0); intros [= <-]; auto.
Qed.

Lemma train_step_total e st :
  eval_every <> 0%Z -> is_Some (train_step' e st).
Proof.
  intros Hne. unfold train_step. destruct (Z.eqb_spec eval_every 0); [done|].
  destruct (_ =? 0)%Z; eauto.
Qed.

Lemma evaluate_effect e st : epoch_effect e st (evaluate' e st).
Proof.
  destruct (evaluate_cases e st) as [[_ ->]|[_ ->]].
  - exists [Save e (step st) (eval_info e st)]. simpl. repeat split.
    + by repeat constructor.
    + by rewrite andb_false_r.
  - exists []. simpl. rewrite app_nil_r, andb_true_r. by repeat split.
Qed.

Lemma after_batch_effect e st : epoch_effect e st (after_batch e st).
Proof.
  exists [TrainBatch e (step st + 1)%Z]. simpl. rewrite andb_true_r.
  repeat split. by repeat constructor.
Qed.

Lemma train_step_effect e st st' :
  train_step' e st = Some st' -> epoch_effect e st st'.
Proof.
  intros H. apply train_step_cases in H as [_ [[_ ->]|[_ ->]]].
  - eapply epoch_effect_trans; [apply after_batch_effect|apply evaluate_effect].
  - apply after_batch_effect.
Qed.

Lemma train_batches_effect n e st st' :
  train_batches' n e st = Some st' -> epoch_effect e st st'.
Proof.
  revert st. induction n as [|n IH]; intros st; simpl.
  - intros [= <-]. apply epoch_effect_refl.
  - destruct (train_step' e st) as [st1|] eqn:Hs; [|done]. simpl.
    intros H. eapply epoch_effect_trans; [by eapply train_step_effect|by apply IH].
Qed.

Lemma unfreeze_effect e st : epoch_effect e st (unfreeze warmup_epoch e st).
Proof.
  unfold unfreeze. destruct (_ && _); [|apply epoch_effect_refl].
  exists [Unfreeze e]. simpl. rewrite andb_true_r. repeat split.
  by repeat constructor.
Qed.

Lemma train_epoch_effect e st st' :
  train_epoch' e st = Some st' -> epoch_effect e st st'.
Proof.
  unfold train_epoch. intros H.
  eapply epoch_effect_trans; [apply unfreeze_effect|by eapply train_batches_effect].
Qed.

Lemma train_batches_total n e st :
  eval_every <> 0%Z -> is_Some (train_batches' n e st).
Proof.
  intros Hne. revert st. induction n as [|n IH]; intros st; simpl; [eauto|].
  destruct (train_step_total e st Hne) as [st1 ->]. simpl. apply IH.
Qed.

(** ***** The state at the top of an epoch *)

(** The state in which the loop arrives at the top of epoch [n], before
    the early-stopping bookkeeping, when it gets that far: no error and
    no [break] in the epochs before. *)
Fixpoint top_state (info_file : option info_dict) (n : nat)
  : option fit_state :=
  match n with
  | O => Some (initial_state info_file)
  | S n' =>
      st ← top_state info_file n';
      match check (Z.of_nat n') st with
      | (Break, _) => None
      | (Continue, st1) => train_epoch' (Z.of_nat n') st1
      end
  end.

Lemma top_state_S_inv info_file n st' :
  top_state info_file (S n) = Some st' ->
  exists st st1,
    top_state info_file n = Some st
    /\ check (Z.of_nat n) st = (Continue, st1)
    /\ train_epoch' (Z.of_nat n) st1 = Some st'.
Proof.
  simpl. destruct (top_state info_file n) as [st|]; [|done]. simpl.
  destruct (check (Z.of_nat n) st) as [[] st1] eqn:Hc; [|done].
  intros H. by exists st, st1.
Qed.

Lemma check_trace e st : trace (check e st).2 = trace st.
Proof.
  unfold early_stop_check.
  repeat match goal with |- context [if ?b then _ else _] => destruct b end; done.
Qed.

Lemma check_counter_nonneg e st :
  (0 <= no_improve_epoch st)%Z -> (0 <= no_improve_epoch (check e st).2)%Z.
Proof.
  unfold early_stop_check. intros H.
  repeat match goal with |- context [if ?b then _ else _] => destruct b end;
    simpl; lia.
Qed.

Lemma check_before_warmup e st :
  (e < warmup_epoch)%Z -> check e st = (Continue, st).
Proof.
  intros H. unfold early_stop_check.
  destruct (Z.leb_spec warmup_epoch e); [lia|done].
Qed.

Lemma check_flag_clear e st :
  (warmup_epoch <= e)%Z -> no_improve_in_previous_epoch st = false ->
  (check e st).1 = Continue /\ no_improve_epoch (check e st).2 = 0%Z
  /\ no_improve_in_previous_epoch (check e st).2 = true.
Proof.
  intros H Hf. unfold early_stop_check.
  destruct (Z.leb_spec warmup_epoch e); [|lia]. by rewrite Hf.
Qed.

Lemma check_flag_set e st :
  (warmup_epoch <= e)%Z -> no_improve_in_previous_epoch st = true ->
  no_improve_epoch (check e st).2 = (no_improve_epoch st + 1)%Z
  /\ ((check e st).1 = Break <-> (early_stop <= no_improve_epoch st + 1)%Z)
  /\ no_improve_in_previous_epoch (check e st).2 = true.
Proof.
  intros H Hf. unfold early_stop_check.
  destruct (Z.leb_spec warmup_epoch e); [|lia]. rewrite Hf.
  destruct (Z.leb_spec early_stop (no_improve_epoch st + 1)); simpl;
    repeat split; try done; lia.
Qed.

Lemma check_continue_flag e st st1 :
  (warmup_epoch <= e)%Z -> check e st = (Continue, st1) ->
  no_improve_in_previous_epoch st1 = true.
Proof.
  intros H Hc. destruct (no_improve_in_previous_epoch st) eqn:Hf.
  - destruct (check_flag_set e st H Hf) as (_ & _ & H3). by rewrite Hc in H3.
  - destruct (check_flag_clear e st H Hf) as (_ & _ & H3). by rewrite Hc in H3.
Qed.

Lemma existsb_is_save e evs :
  Forall (fun ev => event_epoch ev = e) evs ->
  existsb is_save evs = true <-> improved_in e evs.
Proof.
  intros Hall. rewrite existsb_exists. unfold improved_in. split.
  - intros ([e'| |e' step info] & Hin & Hs); try done.
    rewrite Forall_forall in Hall.
    rewrite <- list_elem_of_In in Hin. pose proof (Hall _ Hin) as He.
    simpl in He. subst e'. eauto.
  - intros (step & info & Hin). exists (Save e step info).
    by rewrite <- list_elem_of_In.
Qed.

(** What holds at the top of every epoch. *)
Lemma top_state_inv info_file n st :
  top_state info_file n = Some st ->
  Forall (fun ev => (event_epoch ev < Z.of_nat n)%Z) (trace st)
  /\ (0 <= no_improve_epoch st)%Z
  /\ ((Z.of_nat n <= warmup_epoch)%Z \/ n = 0%nat ->
      no_improve_in_previous_epoch st = false)
  /\ ((warmup_epoch < Z.of_nat n)%Z -> (0 < n)%nat ->
      (no_improve_in_previous_epoch st = true
       <-> ~ improved_in (Z.of_nat n - 1) (trace st))).
Proof.
  revert st. induction n as [|n IH]; intros st'.
  - intros [= <-]. simpl. repeat split; try done; lia.
  - intros H. apply top_state_S_inv in H as (st & st1 & Htop & Hc & Hep).
    destruct (IH st Htop) as (Hev & Hcnt & Hpre & Hpost). clear IH.
    apply train_epoch_effect in Hep as (evs & Htr & Hevs & Hcnt' & Hflag).
    pose proof (check_trace (Z.of_nat n) st) as Htr1.
    pose proof (check_counter_nonneg (Z.of_nat n) st Hcnt) as Hcnt1.
    rewrite Hc in Htr1, Hcnt1. simpl in Htr1, Hcnt1.
    rewrite Htr, Htr1. split; [|split; [lia|split]].
    + apply Forall_app. split.
      * eapply Forall_impl; [exact Hev|]. intros ev ?. cbv beta in *. lia.
      * eapply Forall_impl; [exact Hevs|]. intros ev ?. cbv beta in *. lia.
    + intros [Hle|?]; [|lia].
      rewrite check_before_warmup in Hc by lia. injection Hc as <-.
      rewrite Hflag, Hpre; [done|lia].
    + intros Hlt _. replace (Z.of_nat (S n) - 1)%Z with (Z.of_nat n) by lia.
      rewrite Hflag, (check_continue_flag (Z.of_nat n) st st1 ltac:(lia) Hc). simpl.
      rewrite negb_true_iff, <- not_true_iff_false, (existsb_is_save _ _ Hevs).
      unfold improved_in. split.
      * intros Hno (step & info & Hin). apply elem_of_app in Hin as [Hin|Hin].
        -- rewrite Forall_forall in Hev. apply Hev in Hin. simpl in Hin. lia.
        -- apply Hno. eauto.
      * intros Hno (step & info & Hin). apply Hno.
        exists step, info. apply elem_of_app. by right.
Qed.

(** ***** The loop, from the top of an epoch *)

Lemma loop_from_top info_file n st :
  top_state info_file n = Some st -> (n <= Z.to_nat epoch)%nat ->
  fit_loop' info_file
  = epochs_loop' (range_from (Z.of_nat n) (Z.to_nat epoch - n)) st.
Proof.
  revert st. induction n as [|n IH]; intros st' Htop Hle.
  - injection Htop as <-. unfold fit_loop, range. by rewrite Nat.sub_0_r.
  - apply top_state_S_inv in Htop as (st & st1 & Htop & Hc & Hep).
    rewrite (IH st Htop) by lia.
    replace (Z.to_nat epoch - n)%nat with (S (Z.to_nat epoch - S n)) by lia.
    simpl. rewrite Hc, Hep. simpl.
    by replace (Z.of_nat n + 1)%Z with (Z.pos (Pos.of_succ_nat n)) by lia.
Qed.

(** A [break] at the top of an epoch ends the run there. *)
Lemma fit_loop_break info_file n st st1 :
  top_state info_file n = Some st -> (n < Z.to_nat epoch)%nat ->
  check (Z.of_nat n) st = (Break, st1) ->
  fit_loop' info_file = Some st1.
Proof.
  intros Htop Hlt Hc. rewrite (loop_from_top _ _ _ Htop) by lia.
  replace (Z.to_nat epoch - n)%nat with (S (Z.to_nat epoch - S n)) by lia.
  simpl. by rewrite Hc.
Qed.

(** A run that returns has left by a [break] at the top of some epoch,
    or has done all its epochs. *)
Lemma fit_loop_inv info_file final :
  fit_loop' info_file = Some final ->
  (exists n st,
     (n < Z.to_nat epoch)%nat /\ top_state info_file n = Some st
     /\ check (Z.of_nat n) st = (Break, final))
  \/ top_state info_file (Z.to_nat epoch) = Some final.
Proof.
  assert (Hgen : forall k n st,
             top_state info_file n = Some st -> (n + k)%nat = Z.to_nat epoch ->
             epochs_loop' (range_from (Z.of_nat n) k) st = Some final ->
             (exists n st,
                (n < Z.to_nat epoch)%nat /\ top_state info_file n = Some st
                /\ check (Z.of_nat n) st = (Break, final))
             \/ top_state info_file (Z.to_nat epoch) = Some final).
  { induction k as [|k IH]; intros n st Htop Hsum; simpl.
    - intros [= <-]. right. by replace (Z.to_nat epoch) with n by lia.
    - destruct (check (Z.of_nat n) st) as [[] st1] eqn:Hc.
      + destruct (train_epoch' (Z.of_nat n) st1) as [st2|] eqn:Hep; [|done].
        simpl. replace (Z.of_nat n + 1)%Z with (Z.of_nat (S n)) by lia.
        apply IH; [|lia]. simpl. rewrite Htop. simpl. by rewrite Hc.
      + intros [= <-]. left. exists n, st. repeat split; [lia|done|done]. }
  intros H. apply (Hgen (Z.to_nat epoch) 0%nat (initial_state info_file));
    [done|lia|exact H].
Qed.

(** The states at the tops of the earlier epochs, and what they had
    already done. *)
Lemma top_state_prefix info_file m k st_m :
  top_state info_file m = Some st_m -> (k <= m)%nat ->
  exists st_k,
    top_state info_file k = Some st_k /\ trace st_k `prefix_of` trace st_m.
Proof.
  revert st_m. induction m as [|m IH]; intros st_m Htop Hle.
  - replace k with 0%nat by lia. by exists st_m.
  - destruct (decide (k = S m)) as [->|Hne]; [by exists st_m|].
    pose proof Htop as Htop'.
    apply top_state_S_inv in Htop' as (st & st1 & Htop' & Hc & Hep).
    destruct (IH st Htop' ltac:(lia)) as (st_k & Hk & Hpre).
    exists st_k. split; [done|]. etrans; [exact Hpre|].
    apply train_epoch_effect in Hep as (evs & Htr & _).
    pose proof (check_trace (Z.of_nat m) st) as Htr1. rewrite Hc in Htr1.
    simpl in Htr1. rewrite Htr, Htr1. by apply prefix_app_r.
Qed.

(** An invariant of everything the loop does holds when it returns. *)
Lemma fit_loop_ind (P : fit_state -> Prop) info_file :
  P (initial_state info_file) ->
  (forall e st, P st -> P (check e st).2) ->
  (forall e st, P st -> P (unfreeze warmup_epoch e st)) ->
  (forall e st, P st -> P (after_batch e st)) ->
  (forall e st, P st -> P (evaluate' e st)) ->
  forall final, fit_loop' info_file = Some final -> P final.
Proof.
  intros Hinit Hcheck Hunf Hbatch Heval final.
  assert (Hstep : forall e st st', P st -> train_step' e st = Some st' -> P st').
  { intros e st st' HP H. apply train_step_cases in H as [_ [[_ ->]|[_ ->]]]; auto. }
  assert (Hbatches : forall n e st st',
             P st -> train_batches' n e st = Some st' -> P st').
  { induction n as [|n IH]; intros e st st' HP; simpl.
    - by intros [= <-].
    - destruct (train_step' e st) as [st1|] eqn:Hs; [|done]. simpl.
      apply IH. by eapply Hstep. }
  unfold fit_loop. generalize (range epoch) (initial_state info_file) Hinit.
  intros es. induction es as [|e es IH]; intros st HP; simpl.
  - by intros [= <-].
  - pose proof (Hcheck e st HP) as HP1.
    destruct (check e st) as [[] st1]; simpl in HP1.
    + unfold train_epoch.
      destruct (train_batches' (train_dl e) e (unfreeze warmup_epoch e st1))
        as [st2|] eqn:Hb; [|done]. simpl.
      apply IH. eapply Hbatches; [|exact Hb]. by apply Hunf.
    + by intros [= <-].
Qed.

(** With a non-zero [eval_every] the loop always returns. *)
Lemma fit_loop_total info_file :
  eval_every <> 0%Z -> is_Some (fit_loop' info_file).
Proof.
  intros Hne. unfold fit_loop.
  generalize (range epoch) (initial_state info_file).
  intros es. induction es as [|e es IH]; intros st; simpl; [eauto|].
  destruct (check e st) as [[] st1]; [|eauto].
  unfold train_epoch.
  destruct (train_batches_total (train_dl e) e (unfreeze warmup_epoch e st1) Hne)
    as [st2 ->]. simpl. apply IH.
Qed.

(** ***** Early stopping *)

(** A run that returns stopped at the top of some epoch, or after the
    last one, with the events it had then. *)
Lemma fit_loop_final_top info_file final :
  fit_loop' info_file = Some final ->
  exists m st_m,
    top_state info_file m = Some st_m /\ trace final = trace st_m.
Proof.
  intros H. apply fit_loop_inv in H as [(n & st & _ & Htop & Hc)|Htop].
  - exists n, st. split; [done|].
    pose proof (check_trace (Z.of_nat n) st) as Ht. by rewrite Hc in Ht.
  - by exists (Z.to_nat epoch), final.
Qed.

(** C1 (as amended). Early stopping has epoch granularity, and it judges
    the epochs from [warmup_epoch] on.  At the top of every epoch [n] of
    the run with [warmup_epoch <= n] the flag is checked.  At the first
    such epoch the flag is clear, whatever happened before: the counter
    is set to 0 and the epoch runs.  At every later epoch, if epoch
    [n - 1] saved no checkpoint (no validation reached the best F1 so
    far) the counter is incremented, and the loop is left exactly when
    the incremented counter is at least [early_stop]; if epoch [n - 1]
    did save, the counter is reset to 0 and the epoch runs.  When the
    loop is left at the top of epoch [n], that is the result of the run
    and it has no batch of epoch [n] or later.  In particular, for
    [warmup_epoch = 2] and [early_stop = 1], a run in which epoch 2 saved
    no checkpoint has no batch of epoch 3. *)
Theorem C1_early_stopping :
  (forall info_file (n : nat) st,
     top_state info_file n = Some st ->
     (n < Z.to_nat epoch)%nat ->
     (warmup_epoch <= Z.of_nat n)%Z ->
     let r := check (Z.of_nat n) st in
     (n = 0%nat \/ Z.of_nat n = warmup_epoch ->
      r.1 = Continue /\ no_improve_epoch r.2 = 0%Z)
     /\ ((0 < n)%nat -> (warmup_epoch < Z.of_nat n)%Z ->
         ~ improved_in (Z.of_nat n - 1) (trace st) ->
         no_improve_epoch r.2 = (no_improve_epoch st + 1)%Z
         /\ (r.1 = Break <-> (early_stop <= no_improve_epoch st + 1)%Z))
     /\ ((0 < n)%nat -> (warmup_epoch < Z.of_nat n)%Z ->
         improved_in (Z.of_nat n - 1) (trace st) ->
         r.1 = Continue /\ no_improve_epoch r.2 = 0%Z)
     /\ (r.1 = Break ->
         fit_loop' info_file = Some r.2
         /\ forall e step, TrainBatch e step ∈ trace r.2 -> (e < Z.of_nat n)%Z))
  /\ (forall info_file final,
        warmup_epoch = 2%Z -> early_stop = 1%Z ->
        fit_loop' info_file = Some final ->
        ~ improved_in 2 (trace final) ->
        forall step, TrainBatch 3 step ∉ trace final).
Proof.
  split.
  - intros info_file n st Htop Hlt Hw r.
    destruct (top_state_inv _ _ _ Htop) as (Hev & Hcnt & Hpre & Hpost).
    split; [|split; [|split]].
    + intros Hfirst.
      destruct (check_flag_clear (Z.of_nat n) st Hw) as (H1 & H2 & _); [|done].
      apply Hpre. lia.
    + intros Hn Hlt' Hno.
      destruct (check_flag_set (Z.of_nat n) st Hw) as (H1 & H2 & _); [|done].
      by apply Hpost.
    + intros Hn Hlt' Himp.
      destruct (check_flag_clear (Z.of_nat n) st Hw) as (H1 & H2 & _); [|done].
      destruct (no_improve_in_previous_epoch st) eqn:Hf; [|done].
      exfalso. by apply (proj1 (Hpost Hlt' Hn)).
    + intros Hbr. split.
      * eapply fit_loop_break; [exact Htop|exact Hlt|].
        subst r. destruct (check (Z.of_nat n) st) as [c st1]. simpl in *.
        by subst c.
      * intros e step Hin. subst r. rewrite check_trace in Hin.
        rewrite Forall_forall in Hev. by apply Hev in Hin.
  - intros info_file final Hw2 Hes1 Hfit Hno step Hin.
    destruct (fit_loop_final_top _ _ Hfit) as (m & st_m & Htop & Htr).
    rewrite Htr in Hin, Hno.
    destruct (top_state_inv _ _ _ Htop) as (Hev & _).
    rewrite Forall_forall in Hev. apply Hev in Hin. simpl in Hin.
    destruct (top_state_prefix _ m 4 _ Htop ltac:(lia)) as (st4 & Htop4 & _).
    destruct (top_state_prefix _ m 3 _ Htop ltac:(lia)) as (st3 & Htop3 & Hpre3).
    apply top_state_S_inv in Htop4 as (st3' & st3'' & Htop3' & Hc & _).
    rewrite Htop3 in Htop3'. injection Htop3' as <-.
    destruct (top_state_inv _ _ _ Htop3) as (_ & Hcnt & _ & Hpost).
    assert (no_improve_in_previous_epoch st3 = true) as Hflag.
    { apply Hpost; [lia|lia|]. intros (s & i & Hs). apply Hno.
      exists s, i. destruct Hpre3 as [k ->]. apply elem_of_app. by left. }
    destruct (check_flag_set (Z.of_nat 3) st3 ltac:(lia) Hflag) as (_ & Hbr & _).
    rewrite Hc in Hbr. simpl in Hbr.
    assert (Continue = Break) by (apply Hbr; lia). done.
Qed.

(** ***** Checkpoints *)

Lemma check_frame e st :
  trace (check e st).2 = trace st
  /\ val_record (check e st).2 = val_record st
  /\ max_f1 (check e st).2 = max_f1 st
  /\ best_info_file (check e st).2 = best_info_file st.
Proof.
  unfold early_stop_check.
  repeat match goal with |- context [if ?b then _ else _] => destruct b end; done.
Qed.

(** C2. A validation whose F1 is at least the running best saves a
    checkpoint, makes that F1 the running best, and clears the
    no-improvement flag, a tie included; a validation with a smaller F1
    saves nothing and changes none of these.  Hence in a run that returns,
    the steps at which checkpoints were saved are the steps of the
    validations at least as good as all earlier ones (and as the initial
    best, 0), and the tracker ends at the running best.  In a run whose
    validations scored 0.5, 0.5, 0.6 and 0.55, the checkpoints were saved
    at the first three and not at the fourth. *)
Theorem C2_checkpoint_rule :
  (forall e st,
     (max_f1 st <= eval_f1 st ->
      trace (evaluate' e st)
      = (trace st ++ [Save e (step st) (eval_info e st)])%list
      /\ best_info_file (evaluate' e st) = Some (eval_info e st)
      /\ max_f1 (evaluate' e st) = eval_f1 st
      /\ no_improve_in_previous_epoch (evaluate' e st) = false)
     /\ (eval_f1 st < max_f1 st ->
         trace (evaluate' e st) = trace st
         /\ best_info_file (evaluate' e st) = best_info_file st
         /\ max_f1 (evaluate' e st) = max_f1 st
         /\ no_improve_in_previous_epoch (evaluate' e st)
            = no_improve_in_previous_epoch st))
  /\ (forall info_file final,
        fit_loop' info_file = Some final ->
        saved_steps (trace final)
        = map ve_step (improving 0 (val_record final))
        /\ max_f1 final = running_best 0 (val_record final))
  /\ (forall info_file final v1 v2 v3 v4,
        fit_loop' info_file = Some final ->
        val_record final = [v1; v2; v3; v4] ->
        ve_f1_score v1 == 0.5 -> ve_f1_score v2 == 0.5 ->
        ve_f1_score v3 == 0.6 -> ve_f1_score v4 == 0.55 ->
        saved_steps (trace final) = [ve_step v1; ve_step v2; ve_step v3]).
Proof.
  assert (Hrun : forall info_file final,
             fit_loop' info_file = Some final ->
             saved_steps (trace final)
             = map ve_step (improving 0 (val_record final))
             /\ max_f1 final = running_best 0 (val_record final)).
  { intros info_file. apply fit_loop_ind.
    - done.
    - intros e st [H1 H2]. destruct (check_frame e st) as (-> & -> & -> & _).
      done.
    - intros e st [H1 H2]. unfold unfreeze. destruct (_ && _); [|done].
      simpl. by rewrite saved_steps_snoc_other.
    - intros e st [H1 H2]. simpl. by rewrite saved_steps_snoc_other.
    - intros e st [H1 H2].
      destruct (evaluate_cases e st) as [[Hc ->]|[Hc ->]]; simpl;
        rewrite improving_snoc, running_best_snoc, <- H2;
        change (ve_f1_score (eval_entry st)) with (eval_f1 st); rewrite Hc.
      + rewrite saved_steps_snoc_save, map_app, H1. done.
      + by rewrite app_nil_r. }
  split; [|split; [exact Hrun|]].
  - intros e st. split.
    + intros Hle. apply Qle_bool_iff in Hle.
      destruct (evaluate_cases e st) as [[Hc ->]|[Hc ->]]; [done|congruence].
    + intros Hlt.
      destruct (evaluate_cases e st) as [[Hc ->]|[Hc ->]]; [|done].
      apply Qle_bool_iff in Hc. exfalso. by eapply Qlt_not_le.
  - intros info_file final v1 v2 v3 v4 Hfit Hvr H1 H2 H3 H4.
    destruct (Hrun _ _ Hfit) as [-> _]. rewrite Hvr. simpl.
    assert (Qle_bool 0 (ve_f1_score v1) = true) as ->
      by (apply Qle_bool_iff; lra).
    assert (Qle_bool (ve_f1_score v1) (ve_f1_score v2) = true) as ->
      by (apply Qle_bool_iff; lra).
    assert (Qle_bool (ve_f1_score v2) (ve_f1_score v3) = true) as ->
      by (apply Qle_bool_iff; lra).
    assert (Qle_bool (ve_f1_score v3) (ve_f1_score v4) = false) as ->.
    { apply not_true_iff_false. rewrite Qle_bool_iff. lra. }
    done.
Qed.

(** ***** The info record of a checkpoint *)

Lemma eval_info_map e st :
  eval_info e st
  = [ ("best_ep", PyInt e); ("step", PyInt (step st));
      ("train_loss", round (PyFloat (mean (losses st))) 4);
      ("val_loss", round (PyFloat (mean (map vb_loss (val_dl (step st))))) 4);
      ("f1_score", round (PyFloat (eval_f1 st)) 4) ].
Proof.
  unfold eval_info. rewrite format_info_map; [done|].
  apply (bool_decide_unpack _). by vm_compute.
Qed.





End FitProofs.

(** ***** Two runs *)

(** A run of four epochs of one batch each, validated after every batch on
    four examples, with [early_stop = 1] and [warmup_epoch = 2]: the model
    is right on all four at step 1 (F1 = 1) and on two of them afterwards
    (F1 = 1/2). *)
Definition run1_val_dl (step : Z) : list val_batch :=
  [ ValBatch (if (step =? 1)%Z then [0.9; 0.8; 0.1; 0.2]
              else [0.9; 0.1; 0.8; 0.2])
             [1; 1; 0; 0]%Z 0.4 ].

Definition run1_top (n : nat) : option fit_state :=
  top_state 1 0.5 1 2 Utils.f1_metric (fun _ => 1%nat) (fun _ => 0.3)
    run1_val_dl None n.

Definition run1 : option fit_state :=
  fit_loop 4 1 0.5 1 2 Utils.f1_metric (fun _ => 1%nat) (fun _ => 0.3)
    run1_val_dl None.

(** A run of one epoch of four batches, validated after every batch on
    forty examples, twenty of them positive; the model labels twenty
    positive, of which 10, 10, 12 and 11 rightly. *)
Definition run2_probs (tp : nat) : list Q :=
  (repeat 0.9 tp ++ repeat 0.1 (20 - tp) ++ repeat 0.9 (20 - tp)
   ++ repeat 0.1 tp)%list.

Definition run2_val_dl (step : Z) : list val_batch :=
  [ ValBatch (run2_probs (nth (Z.to_nat step) [0; 10; 10; 12; 11]%nat 0%nat))
             (repeat 1%Z 20 ++ repeat 0%Z 20) 0.4 ].

Definition run2 : option fit_state :=
  fit_loop 1 1 0.5 1 2 Utils.f1_metric (fun _ => 4%nat) (fun _ => 0.3)
    run2_val_dl None.

(** The rule of early stopping read without the warm-up exception: at
    the top of every epoch from [warmup_epoch] on, a previous epoch without
    a checkpoint increments the counter, and the loop is left once the
    counter has reached [early_stop]. *)
Definition rule_without_exception (early_stop warmup_epoch : Z) (n : nat)
    (st : fit_state) : Prop :=
  (warmup_epoch <= Z.of_nat n)%Z -> (0 < n)%nat ->
  ~ improved_in (Z.of_nat n - 1) (trace st) ->
  let r := early_stop_check early_stop warmup_epoch (Z.of_nat n) st in
  no_improve_epoch r.2 = (no_improve_epoch st + 1)%Z
  /\ ((early_stop <= no_improve_epoch r.2)%Z -> r.1 = Break).

Ltac not_in_trace H :=
  repeat (apply elem_of_cons in H as [H|H]; [discriminate H|]);
  by apply elem_of_nil in H.

(** In the first run, epoch 1 saves no checkpoint, and yet at the top of
    epoch 2, the first one from [warmup_epoch] on, the counter stays at 0
    and the batch of epoch 2 is trained. *)
Lemma C1_warmup_epoch_not_judged :
  exists st final,
    run1_top 2 = Some st /\ run1 = Some final
    /\ ~ improved_in 1 (trace st)
    /\ ~ rule_without_exception 1 2 2 st
    /\ early_stop_check 1 2 2 st
       = (Continue,
          FitState (step st) (max_f1 st) 0 true (fine_tuning st) (losses st)
            (val_record st) (best_info_file st) (trace st))
    /\ TrainBatch 2 3 ∈ trace final.
Proof.
  eexists _, _. split; [vm_compute; reflexivity|].
  split; [vm_compute; reflexivity|].
  assert (Hno : ~ improved_in 1
                  [TrainBatch 0 1;
                   Save 0 1 [("best_ep", PyInt 0); ("step", PyInt 1);
                             ("train_loss", PyFloat 0.3);
                             ("val_loss", PyFloat (2 # 5));
                             ("f1_score", PyFloat 1)];
                   TrainBatch 1 2]).
  { intros (step & info & Hin). not_in_trace Hin. }
  split; [exact Hno|]. split; [|split; [reflexivity|]].
  - intros Hrule. destruct Hrule as [Hcnt _]; [lia|lia|exact Hno|].
    vm_compute in Hcnt. discriminate Hcnt.
  - set_solver.
Qed.

(** The first run, at the top of epoch 3. *)
Lemma C1_early_stopping_witness :
  exists st,
    run1_top 3 = Some st
    /\ (early_stop_check 1 2 3 st).1 = Break
    /\ run1 = Some (early_stop_check 1 2 3 st).2
    /\ forall step, TrainBatch 3 step ∉ trace (early_stop_check 1 2 3 st).2.
Proof.
  eexists. split; [vm_compute; reflexivity|].
  pose proof (C1_early_stopping 4 1 0.5 1 2 Utils.f1_metric (fun _ => 1%nat)
                (fun _ => 0.3) run1_val_dl) as [Hgen Hpart].
  specialize (Hgen None 3%nat _ ltac:(vm_compute; reflexivity)
                ltac:(vm_compute; lia) ltac:(lia)).
  destruct Hgen as (_ & Hinc & _ & Hbreak).
  assert (Hno : ~ improved_in 2
                  [TrainBatch 0 1;
                   Save 0 1 [("best_ep", PyInt 0); ("step", PyInt 1);
                             ("train_loss", PyFloat 0.3);
                             ("val_loss", PyFloat (2 # 5));
                             ("f1_score", PyFloat 1)];
                   TrainBatch 1 2; Unfreeze 2; TrainBatch 2 3]).
  { intros (step & info & Hin). not_in_trace Hin. }
  destruct (Hinc ltac:(lia) ltac:(lia) Hno) as [_ Hiff].
  assert (Hb : (early_stop_check 1 2 3 _).1 = Break) by (apply Hiff; vm_compute; discriminate).
  split; [exact Hb|]. destruct (Hbreak Hb) as [Hfit _]. split; [exact Hfit|].
  apply (Hpart None _ eq_refl eq_refl Hfit Hno).
Defined.

(** The second run scores 0.5, 0.5, 0.6 and 0.55. *)
Lemma C2_checkpoint_rule_witness :
  exists final,
    run2 = Some final
    /\ Forall2 Qeq (map ve_f1_score (val_record final)) [0.5; 0.5; 0.6; 0.55]
    /\ saved_steps (trace final) = [1; 2; 3]%Z.
Proof.
  eexists. split; [vm_compute; reflexivity|]. split.
  - repeat constructor.
  - etrans.
    + eapply (proj2 (proj2 (C2_checkpoint_rule 1 1 0.5 1 2 Utils.f1_metric
                              (fun _ => 4%nat) (fun _ => 0.3) run2_val_dl))
                None);
        [vm_compute; reflexivity|reflexivity|..]; vm_compute; reflexivity.
    + reflexivity.
Defined.


(** **** The threshold search *)

(** When [np.arange] returns, the length it computed is a number, and
    the candidates are the items of that many indices, in order. *)
Lemma arange_Some start stop step cands :
  arange start stop step = Some cands ->
  exists q,
    value ((stop - start) / step)%float = PyFloat q
    /\ cands = map (arange_item start step)
                   (seq 0 (Z.to_nat (Qceiling q))).
Proof.
  unfold arange. destruct (is_zero step); [done|].
  destruct (value ((stop - start) / step)%float) as [| q | |]; try done.
  destruct ((Qceiling q <? - 2 ^ 63)%Z || (2 ^ 63 - 1 <? Qceiling q)%Z);
    [done|].
  intros [= <-]. by exists q.
Qed.

Lemma arange_lookup start stop step cands (i : nat) c :
  arange start stop step = Some cands ->
  cands !! i = Some c -> c = arange_item start step i.
Proof.
  intros (q & _ & ->)%arange_Some. rewrite list_lookup_fmap.
  destruct (seq 0 (Z.to_nat (Qceiling q)) !! i) as [k|] eqn:Hk; [|done].
  apply lookup_seq in Hk as [-> _]. simpl. by intros [= <-].
Qed.

Lemma count_if_nonneg {A} (test : A -> bool) xs : (0 <= count_if test xs)%Z.
Proof. unfold count_if. lia. Qed.


Section ChooseTrProofs.

Variables (val_pred : list Q) (val_true : list Z).

(** The F1 of the validation predictions thresholded at a candidate. *)
Definition cand_f1 (cand : float) : Q :=
  f1_score val_true (greater_than val_pred cand).

Local Abbreviation body := (choose_tr_body val_pred val_true).

(** What the scan has retained after the candidates [cands]: the best
    F1 bounds the F1 of all of them; and either nothing beat the initial
    best, or the retained threshold is the first candidate whose F1 is
    the best one. *)
Lemma choose_tr_fold cands st :
  let st' := foldl body st cands in
  tmp2 st <= tmp2 st'
  /\ Forall (fun c => cand_f1 c <= tmp2 st') cands
  /\ ((tr st' = tr st /\ tmp2 st' = tmp2 st)
      \/ exists i : nat,
           cands !! i = Some (tr st') /\ tmp2 st' = cand_f1 (tr st')
           /\ tmp2 st < tmp2 st'
           /\ forall (j : nat) c,
                (j < i)%nat -> cands !! j = Some c -> cand_f1 c < tmp2 st').
Proof.
  revert st. induction cands as [|c cs IH]; intros st; simpl.
  - split; [apply Qle_refl|]. split; [constructor|]. by left.
  - destruct (IH (body st c)) as (HA & HB & HC). clear IH.
    set (st' := foldl body (body st c) cs) in *.
    unfold choose_tr_body in HA, HC. fold (cand_f1 c) in HA, HC.
    destruct (Qlt_le_dec (tmp2 st) (cand_f1 c)) as [Hlt|Hle]; simpl in HA, HC.
    + split; [lra|]. split; [by constructor|]. right.
      destruct HC as [[Htr Hbest]|(i & Hi & Hbest & Hgt & Hbefore)].
      * exists 0%nat. simpl. rewrite Htr, Hbest. repeat split; try done.
        intros j c' Hj. lia.
      * exists (S i). simpl. repeat split; try done; [lra|].
        intros [|j] c' Hj; simpl.
        -- intros [= <-]. done.
        -- apply Hbefore. lia.
    + split; [lra|]. split; [constructor; [lra|done]|].
      destruct HC as [[Htr Hbest]|(i & Hi & Hbest & Hgt & Hbefore)];
        [by left|right].
      exists (S i). simpl. repeat split; try done.
      intros [|j] c' Hj; simpl.
      * intros [= <-]. lra.
      * apply Hbefore. lia.
Qed.




End ChooseTrProofs.




End LearnerSpec.

Module PreprocessSpec.
Import Preprocess.

(** **** Counting *)

(** A token is counted: it has a positive count. *)
Definition counted (c : gmap string nat) (tok : string) : Prop :=
  exists n, c !! tok = Some (S n).

Lemma counter_update_keeps c x tok :
  counted c tok -> counted (counter_update c x) tok.
Proof.
  unfold counter_update. revert c.
  induction x as [|t x IH]; intros c Hc; simpl; [done|].
  apply IH. destruct Hc as [n Hn]. destruct (decide (t = tok)) as [->|Hne].
  - rewrite Hn. simpl. eexists. apply lookup_insert_eq.
  - exists n. by rewrite lookup_insert_ne.
Qed.

Lemma counter_update_counts c x tok :
  tok ∈ x -> counted (counter_update c x) tok.
Proof.
  revert c. induction x as [|t x IH]; intros c Hin; [by apply elem_of_nil in Hin|].
  apply elem_of_cons in Hin as [<-|Hin].
  - change (counter_update c (tok :: x))
      with (counter_update (<[tok := S (default 0%nat (c !! tok))]> c) x).
    apply counter_update_keeps. eexists. apply lookup_insert_eq.
  - apply (IH (<[t := S (default 0%nat (c !! t))]> c) Hin).
Qed.

Lemma counter_update_positive c x :
  map_Forall (fun _ n => (1 <= n)%nat) c ->
  map_Forall (fun _ n => (1 <= n)%nat) (counter_update c x).
Proof.
  unfold counter_update. revert c.
  induction x as [|t x IH]; intros c Hc; simpl; [done|].
  apply IH. apply map_Forall_insert_2; [lia|done].
Qed.

Lemma column_keeps c (data : column) tok :
  counted c tok -> counted (foldl counter_update c data) tok.
Proof.
  revert c. induction data as [|x data IH]; intros c Hc; simpl; [done|].
  by apply IH, counter_update_keeps.
Qed.

Lemma column_counts c (data : column) x tok :
  x ∈ data -> tok ∈ x -> counted (foldl counter_update c data) tok.
Proof.
  revert c. induction data as [|y data IH]; intros c Hx Htok;
    [by apply elem_of_nil in Hx|].
  apply elem_of_cons in Hx as [<-|Hx]; simpl.
  - by apply column_keeps, counter_update_counts.
  - by apply IH.
Qed.

Lemma column_positive c (data : column) :
  map_Forall (fun _ n => (1 <= n)%nat) c ->
  map_Forall (fun _ n => (1 <= n)%nat) (foldl counter_update c data).
Proof.
  revert c. induction data as [|x data IH]; intros c Hc; simpl; [done|].
  by apply IH, counter_update_positive.
Qed.

(** **** The vocabulary *)

Lemma take_frequent_all min_freq l :
  Forall (fun wf => (min_freq <= wf.2)%nat) l ->
  take_frequent min_freq l = map fst l.
Proof.
  induction l as [|[w f] l IH]; intros Hall; simpl; [done|].
  inversion Hall as [|? ? Hf Hl]; subst. simpl in Hf.
  destruct (Nat.ltb_spec f min_freq); [lia|]. by rewrite IH.
Qed.

Lemma zip_seq_snoc {A} (l : list A) x :
  zip (seq 0 (length (l ++ [x])) ) (l ++ [x])
  = (zip (seq 0 (length l)) l ++ [(length l, x)])%list.
Proof.
  rewrite length_app. simpl. rewrite seq_app. simpl.
  by rewrite zip_with_app by (by rewrite length_seq).
Qed.

(** The index of a word of [itos] in [stoi] is a position of that word. *)
Lemma enumerate_index_lookup itos tok :
  tok ∈ itos ->
  exists i, enumerate_index itos !! tok = Some i /\ itos !! i = Some tok.
Proof.
  unfold enumerate_index. induction itos as [|x l IH] using rev_ind;
    [by intros ?%elem_of_nil|].
  intros Hin. rewrite zip_seq_snoc, foldl_app. simpl.
  destruct (decide (x = tok)) as [->|Hne].
  - exists (length l). rewrite lookup_insert_eq. split; [done|].
    by rewrite lookup_app_r, Nat.sub_diag.
  - rewrite lookup_insert_ne by done.
    apply elem_of_app in Hin as [Hin|Hin];
      [|apply list_elem_of_singleton in Hin; congruence].
    destruct (IH Hin) as (i & Hi & Hl). exists i. split; [done|].
    by apply lookup_app_l_Some.
Qed.

(** The stable sort permutes its input and sorts it. *)
Lemma insert_sorted_Permutation {A} (R : relation A) `{!RelDecision R} x l :
  insert_sorted R x l ≡ₚ x :: l.
Proof.
  induction l as [|y l IH]; simpl; [done|].
  destruct (decide (R x y)); [done|]. rewrite IH. apply Permutation_swap.
Qed.

Lemma sorted_Permutation {A} (R : relation A) `{!RelDecision R} l :
  sorted R l ≡ₚ l.
Proof.
  induction l as [|x l IH]; simpl; [done|].
  rewrite insert_sorted_Permutation. by rewrite IH.
Qed.

Lemma insert_sorted_StronglySorted {A} (R : relation A) `{!RelDecision R}
    `{!Total R} `{!Transitive R} x l :
  StronglySorted R l -> StronglySorted R (insert_sorted R x l).
Proof.
  induction 1 as [|y l Hs IH Hall]; simpl; [by repeat constructor|].
  destruct (decide (R x y)) as [Hxy|Hxy].
  - constructor; [by constructor|]. constructor; [done|].
    eapply Forall_impl; [exact Hall|]. intros z Hz. by trans y.
  - constructor; [done|]. rewrite insert_sorted_Permutation.
    constructor; [|done]. by destruct (total R x y).
Qed.

Lemma sorted_StronglySorted {A} (R : relation A) `{!RelDecision R}
    `{!Total R} `{!Transitive R} l :
  StronglySorted R (sorted R l).
Proof.
  induction l as [|x l IH]; simpl; [constructor|].
  by apply insert_sorted_StronglySorted.
Qed.

(** With a minimum frequency of at most 1, every counted token is in the
    vocabulary that [Vocab] builds. *)
Lemma Vocab_init_has_counted counter min_freq tok :
  (min_freq <= 1)%nat ->
  map_Forall (fun _ n => (1 <= n)%nat) counter ->
  counted counter tok ->
  tok ∈ itos (Vocab_init counter min_freq).
Proof.
  intros Hmin Hpos [n Hn]. unfold Vocab_init. cbn [itos].
  replace (min_freq `max` 1)%nat with 1%nat by lia.
  change (foldl (fun c tok => delete tok c) counter specials)
    with (delete "<pad>" (delete "<unk>" counter)).
  apply elem_of_app.
  destruct (decide (tok ∈ specials)) as [Hsp|Hsp]; [by left|right].
  set (counter' := delete "<pad>" (delete "<unk>" counter)).
  assert (Hc' : counter' !! tok = Some (S n)).
  { unfold counter'. unfold specials in Hsp.
    rewrite !not_elem_of_cons in Hsp. destruct Hsp as (H1 & H2 & _).
    by rewrite !lookup_delete_ne. }
  assert (Hpos' : map_Forall (fun _ n => (1 <= n)%nat) counter').
  { unfold counter'. intros k m Hk.
    apply lookup_delete_Some in Hk as [_ Hk].
    apply lookup_delete_Some in Hk as [_ Hk]. by apply (Hpos k). }
  set (waf := sorted by_freq_desc (sorted by_word (map_to_list counter'))).
  assert (Hperm : waf ≡ₚ map_to_list counter').
  { unfold waf. by rewrite !sorted_Permutation. }
  rewrite take_frequent_all.
  - apply list_elem_of_fmap. exists (tok, S n). split; [done|].
    rewrite Hperm. by apply elem_of_map_to_list.
  - apply Forall_forall. intros [w f] Hin. rewrite Hperm in Hin.
    apply elem_of_map_to_list in Hin. simpl. by apply (Hpos' w).
Qed.

(** C5. [Data.preprocess] builds one text vocabulary from the train and
    the test dataset together, with minimum frequency 1: every token of
    every example of either dataset is counted, is in the vocabulary, and
    has an index in it, so that no test token is out of vocabulary.  A
    train set with the only token foo and a test set with the only token
    bar give a vocabulary with both, whichever dataset comes first. *)
Theorem C5_joint_vocabulary :
  (forall (tokenizer : string -> list string) dataset
          (train_csv test_csv : list string) (example : list string)
          (tok : string),
     example ∈ dataset tokenizer train_csv
     \/ example ∈ dataset tokenizer test_csv ->
     tok ∈ example ->
     let v := preprocess tokenizer dataset train_csv test_csv in
     (exists n, freqs v !! tok = Some (S n))
     /\ tok ∈ itos v
     /\ exists i, stoi v !! tok = Some i /\ itos v !! i = Some tok)
  /\ (forall (tokenizer : string -> list string) dataset
             (foo_csv bar_csv : list string),
        dataset tokenizer foo_csv = [["foo"]] ->
        dataset tokenizer bar_csv = [["bar"]] ->
        "foo" ∈ itos (preprocess tokenizer dataset foo_csv bar_csv)
        /\ "bar" ∈ itos (preprocess tokenizer dataset foo_csv bar_csv)
        /\ "foo" ∈ itos (preprocess tokenizer dataset bar_csv foo_csv)
        /\ "bar" ∈ itos (preprocess tokenizer dataset bar_csv foo_csv)).
Proof.
  assert (Hgen : forall (tokenizer : string -> list string) dataset
                        (train_csv test_csv : list string)
                        (example : list string) (tok : string),
             example ∈ dataset tokenizer train_csv
             \/ example ∈ dataset tokenizer test_csv ->
             tok ∈ example ->
             let v := preprocess tokenizer dataset train_csv test_csv in
             (exists n, freqs v !! tok = Some (S n))
             /\ tok ∈ itos v
             /\ exists i, stoi v !! tok = Some i /\ itos v !! i = Some tok).
  { intros tokenizer dataset train_csv test_csv example tok Hex Htok v.
    set (counter := foldl counter_update
                      (foldl counter_update ∅ (dataset tokenizer train_csv))
                      (dataset tokenizer test_csv)).
    assert (Hcounted : counted counter tok).
    { unfold counter. destruct Hex as [Hin|Hin].
      - by apply column_keeps, (column_counts _ _ example).
      - by apply (column_counts _ _ example). }
    assert (Hpos : map_Forall (fun _ n => (1 <= n)%nat) counter).
    { unfold counter. apply column_positive, column_positive.
      apply map_Forall_empty. }
    assert (Hitos : tok ∈ itos v)
      by (by apply Vocab_init_has_counted).
    split; [exact Hcounted|]. split; [exact Hitos|].
    by apply enumerate_index_lookup. }
  split; [exact Hgen|].
  intros tokenizer dataset foo_csv bar_csv Hfoo Hbar. repeat split.
  - apply (Hgen tokenizer dataset foo_csv bar_csv ["foo"] "foo");
      [left; rewrite Hfoo|]; by constructor.
  - apply (Hgen tokenizer dataset foo_csv bar_csv ["bar"] "bar");
      [right; rewrite Hbar|]; by constructor.
  - apply (Hgen tokenizer dataset bar_csv foo_csv ["foo"] "foo");
      [right; rewrite Hfoo|]; by constructor.
  - apply (Hgen tokenizer dataset bar_csv foo_csv ["bar"] "bar");
      [left; rewrite Hbar|]; by constructor.
Qed.

(** With the whitespace tokenizer and torchtext's dataset. *)
Lemma C5_joint_vocabulary_witness :
  itos (preprocess Tokenizers.WhitespaceTokenizer TabularDataset ["foo"] ["bar"])
  = ["<unk>"; "<pad>"; "bar"; "foo"]
  /\ "foo" ∈ itos (preprocess Tokenizers.WhitespaceTokenizer TabularDataset
                     ["foo"] ["bar"])
  /\ "bar" ∈ itos (preprocess Tokenizers.WhitespaceTokenizer TabularDataset
                     ["foo"] ["bar"]).
Proof.
  split; [by vm_compute|].
  destruct (proj2 C5_joint_vocabulary Tokenizers.WhitespaceTokenizer
              TabularDataset ["foo"] ["bar"] eq_refl eq_refl)
    as (Hfoo & Hbar & _).
  by split.
Defined.

End PreprocessSpec.

(** ** Part III: further properties of the code *)

Module TokenizersExtra.
Import PyStr Tokenizers TokenizersSpec.

(** The characters of a list of tokens, in order. *)
Definition token_chars (tokens : list string) : list ascii :=
  concat (map chars tokens).

Definition not_space (c : ascii) : bool := negb (Ascii.eqb c " ").

Lemma split_chars sep s :
  token_chars (split sep s)
  = List.filter (fun c => negb (Ascii.eqb c sep)) (chars s).
Proof.
  unfold token_chars. induction s as [|c s IH]; simpl; [done|].
  destruct (Ascii.eqb c sep); simpl; [done|].
  pose proof (split_nonempty sep s).
  destruct (split sep s) as [|w ws]; [done|]. simpl in *. by rewrite <- IH.
Qed.

Lemma split_chars_subset sep s w c :
  w ∈ split sep s -> c ∈ chars w -> c ∈ chars s.
Proof.
  revert w. induction s as [|a s IH]; intros w; simpl.
  - intros ->%list_elem_of_singleton. done.
  - destruct (Ascii.eqb a sep).
    + intros [->|Hw]%elem_of_cons Hc; [by apply elem_of_nil in Hc|].
      right. by apply (IH w).
    + pose proof (split_nonempty sep s).
      destruct (split sep s) as [|w0 ws]; [done|].
      intros [->|Hw]%elem_of_cons Hc.
      * simpl in Hc. apply elem_of_cons in Hc as [->|Hc]; [by left|].
        right. apply (IH w0); [by left|done].
      * right. apply (IH w); [by right|done].
Qed.

Lemma filter_nonempty_chars ws :
  token_chars (List.filter (fun t => negb (String.eqb t "")) ws)
  = token_chars ws.
Proof.
  unfold token_chars. induction ws as [|w ws IH]; simpl; [done|].
  destruct w; simpl; [done|]. by rewrite IH.
Qed.

(** Cutting a piece neither drops nor changes a character. *)
Lemma ss_tokens_chars ss : token_chars (ss_tokens ss) = chars ss.
Proof.
  destruct (ss_tokens_spec ss) as [[_ ->]|(pre & c & suf & -> & _ & _ & ->)].
  - unfold token_chars. simpl. by rewrite app_nil_r.
  - rewrite filter_nonempty_chars. unfold token_chars. simpl.
    by rewrite app_nil_r, chars_app.
Qed.

Lemma ss_tokens_length ss :
  (1 <= length (ss_tokens ss) <= 3)%nat.
Proof.
  destruct (ss_tokens_spec ss) as [[_ ->]|(pre & c & suf & -> & _ & _ & ->)].
  - simpl. lia.
  - simpl. destruct (negb (pre =? "")%string), (negb (suf =? "")%string);
      simpl; lia.
Qed.

Lemma custom_concat text :
  CustomTokenizer text = concat (map ss_tokens (split " " text)).
Proof. unfold CustomTokenizer. by rewrite foldl_extend. Qed.

(** X1. The punctuation-aware tokenizer neither drops, changes nor
    reorders a character other than the space: the characters of its
    tokens, read in order, are the characters of the text without the
    spaces. *)
Theorem X1_custom_tokenizer_lossless (text : string) :
  token_chars (CustomTokenizer text) = List.filter not_space (chars text).
Proof.
  rewrite custom_concat.
  change (List.filter not_space (chars text))
    with (List.filter (fun c => negb (Ascii.eqb c " ")) (chars text)).
  rewrite <- split_chars. unfold token_chars.
  induction (split " " text) as [|ss l IH]; simpl; [done|].
  rewrite map_app, concat_app, IH. f_equal. apply ss_tokens_chars.
Qed.

Lemma token_chars_elem tokens w c :
  w ∈ tokens -> c ∈ chars w -> c ∈ token_chars tokens.
Proof.
  intros Hw Hc. unfold token_chars. apply list_elem_of_In, in_concat.
  exists (chars w). split; [|by apply list_elem_of_In].
  apply in_map. by apply list_elem_of_In.
Qed.

(** X2. The punctuation-aware tokenizer yields between one and three
    tokens for each space-delimited piece, so at least as many tokens as
    the whitespace tokenizer and at most three times as many, and no
    token contains a space. *)
Theorem X2_custom_tokenizer_token_count (text : string) :
  CustomTokenizer text = concat (map ss_tokens (split " " text))
  /\ Forall (fun ss => (1 <= length (ss_tokens ss) <= 3)%nat) (split " " text)
  /\ (length (WhitespaceTokenizer text) <= length (CustomTokenizer text)
      <= 3 * length (WhitespaceTokenizer text))%nat
  /\ Forall (fun w => " "%char ∉ chars w) (CustomTokenizer text).
Proof.
  split; [apply custom_concat|].
  split; [apply Forall_forall; intros ss _; apply ss_tokens_length|].
  split.
  - rewrite custom_concat. unfold WhitespaceTokenizer.
    induction (split " " text) as [|ss l IH]; simpl; [lia|].
    rewrite length_app. pose proof (ss_tokens_length ss). lia.
  - apply Forall_forall. intros w Hw Hsp. rewrite custom_concat in Hw.
    apply list_elem_of_In, in_concat in Hw as (toks & Htoks & Hw).
    apply in_map_iff in Htoks as (ss & <- & Hss).
    apply list_elem_of_In in Hw, Hss.
    pose proof (token_chars_elem _ _ _ Hw Hsp) as Hin.
    rewrite ss_tokens_chars in Hin.
    pose proof (split_no_sep " " text) as Hno.
    rewrite Forall_forall in Hno. apply (Hno ss Hss).
    by apply list_elem_of_In.
Qed.

Lemma punct_free_search ss : punct_free ss -> punct_search ss = None.
Proof.
  unfold punct_free. induction ss as [|c ss IH]; simpl; [done|].
  intros H. inversion H as [|? ? Hc Hss]; subst. rewrite Hc.
  by rewrite IH.
Qed.

Lemma punct_free_pieces text ss :
  punct_free text -> ss ∈ split " " text -> punct_free ss.
Proof.
  unfold punct_free. rewrite !Forall_forall. intros Hfree Hss c Hc.
  apply Hfree. by apply (split_chars_subset " " text ss).
Qed.

(** X3. On a text without any of the characters [,!.?()] the
    punctuation-aware tokenizer and the whitespace tokenizer return the
    same tokens. *)
Theorem X3_custom_is_whitespace_without_punct (text : string) :
  punct_free text -> CustomTokenizer text = WhitespaceTokenizer text.
Proof.
  intros Hfree. rewrite custom_concat. unfold WhitespaceTokenizer.
  pose proof (punct_free_pieces text) as Hpieces.
  induction (split " " text) as [|ss l IH]; simpl; [done|].
  unfold ss_tokens at 1.
  rewrite punct_free_search by (apply Hpieces; [done|by left]).
  simpl. f_equal. apply IH. intros ss' ? Hin. apply Hpieces; [done|by right].
Qed.

Lemma X3_custom_is_whitespace_without_punct_witness :
  CustomTokenizer "so  many words" = ["so"; ""; "many"; "words"].
Proof.
  rewrite (X3_custom_is_whitespace_without_punct "so  many words");
    [reflexivity|].
  unfold punct_free. repeat constructor.
Defined.

Lemma split_without_sep sep w : ~ In sep (chars w) -> split sep w = [w].
Proof.
  induction w as [|c w IH]; simpl; [done|]. intros Hno.
  destruct (Ascii.eqb_spec c sep) as [->|Hne]; [tauto|].
  rewrite IH by tauto. done.
Qed.

(** X4. For a non-empty list of words none of which contains a space,
    joining the words with single spaces and splitting the result with
    the whitespace tokenizer gives back the words, empty words included. *)
Theorem X4_whitespace_split_of_join (words : list string) :
  words <> [] ->
  Forall (fun w => ~ In " "%char (chars w)) words ->
  WhitespaceTokenizer (join " " words) = words.
Proof.
  unfold WhitespaceTokenizer. intros Hne Hall.
  induction words as [|w ws IH]; [done|].
  inversion Hall as [|? ? Hw Hws]; subst.
  destruct ws as [|w' ws]; [by apply split_without_sep|].
  rewrite join_cons by done.
  change (w +:+ " " +:+ join " " (w' :: ws))
    with (w +:+ String " " (join " " (w' :: ws))).
  rewrite split_app, split_without_sep by done.
  simpl app. f_equal. by apply IH.
Qed.

Lemma X4_whitespace_split_of_join_witness :
  WhitespaceTokenizer (join " " ["a"; ""; "b,c"]) = ["a"; ""; "b,c"].
Proof.
  apply X4_whitespace_split_of_join; [discriminate|].
  repeat constructor; simpl; intuition discriminate.
Defined.

Lemma lower_ascii_idempotent c : lower_ascii (lower_ascii c) = lower_ascii c.
Proof. destruct c as [[] [] [] [] [] [] [] []]; reflexivity. Qed.

Lemma lower_idempotent s : lower (lower s) = lower s.
Proof.
  induction s as [|c s IH]; simpl; [done|].
  by rewrite lower_ascii_idempotent, IH.
Qed.

Lemma lower_ascii_not_upper c :
  let n := nat_of_ascii (lower_ascii c) in ~ (65 <= n <= 90)%nat.
Proof. destruct c as [[] [] [] [] [] [] [] []]; vm_compute; lia. Qed.

(** X5. [lower_spacy] does not depend on the case of its input: it
    returns the same tokens for a text and for the lowercased text, and
    what it hands to the tokenizer has no capital letter A to Z. *)
Theorem X5_lower_spacy_case_insensitive
    (tok : string -> list string) (x : string) :
  lower_spacy tok (lower x) = lower_spacy tok x
  /\ Forall (fun c => ~ (65 <= nat_of_ascii c <= 90)%nat) (chars (lower x)).
Proof.
  split.
  - unfold lower_spacy. by rewrite lower_idempotent.
  - induction x as [|c x IH]; simpl; constructor; [|done].
    apply lower_ascii_not_upper.
Qed.

End TokenizersExtra.

(** *** ens_main.py *)

Module EnsMain.
Import PyStr.

(** The white space of [str.split()] on ASCII text: the characters 9 to
    13 and 28 to 32. *)
Definition is_space (c : ascii) : bool :=
  let n := nat_of_ascii c in
  ((9 <=? n) && (n <=? 13) || (28 <=? n) && (n <=? 32))%nat.

(** [a.split()]: the maximal runs of characters that are not white
    space. *)
Fixpoint split_whitespace (a : string) : list string :=
  match a with
  | EmptyString => []
  | String c a' =>
      if is_space c then split_whitespace a'
      else
        match a' with
        | EmptyString => [String c EmptyString]
        | String c' _ =>
            if is_space c' then String c EmptyString :: split_whitespace a'
            else
              match split_whitespace a' with
              | [] => [String c EmptyString]
              | w :: ws => String c w :: ws
              end
        end
  end.

(** Line 17: [main_args = [a.split() for a in args.main_args]]. *)
Definition main_args (args_main_args : list string) : list (list string) :=
  map split_whitespace args_main_args.

(** The default of [--main_args]. *)
Definition default_main_args : list string :=
  [ "--mode test -em glove"; "--mode test -em wnews";
    "--mode test -em paragram"; "--mode test -em gnews";
    "--mode test -m LinPool3 -em glove paragram wnews" ].

End EnsMain.

Module EnsMainExtra.
Import PyStr EnsMain TokenizersSpec.

Example default_main_args_split :
  main_args default_main_args
  = [ ["--mode"; "test"; "-em"; "glove"]; ["--mode"; "test"; "-em"; "wnews"];
      ["--mode"; "test"; "-em"; "paragram"]; ["--mode"; "test"; "-em"; "gnews"];
      ["--mode"; "test"; "-m"; "LinPool3"; "-em"; "glove"; "paragram"; "wnews"] ].
Proof. reflexivity. Qed.

(** A word: not empty, and without white space. *)
Definition word (w : string) : Prop :=
  w <> "" /\ Forall (fun c => is_space c = false) (chars w).

Lemma split_whitespace_cons c a :
  is_space c = false ->
  exists w ws, split_whitespace (String c a) = String c w :: ws.
Proof.
  intros Hc. simpl. rewrite Hc. destruct a as [|c' a']; [eauto|].
  destruct (is_space c'); [eauto|].
  destruct (split_whitespace (String c' a')); eauto.
Qed.

Lemma split_whitespace_words a : Forall word (split_whitespace a).
Proof.
  induction a as [|c a IH]; [constructor|].
  cbn [split_whitespace]. destruct (is_space c) eqn:Hc; [done|].
  destruct a as [|c' a'].
  - repeat constructor; [done|]. simpl. by repeat constructor.
  - destruct (is_space c') eqn:Hc'.
    + constructor; [|done]. split; [done|]. simpl. by repeat constructor.
    + destruct (split_whitespace (String c' a')) as [|w ws].
      * repeat constructor; [done|]. simpl. by repeat constructor.
      * inversion IH as [|? ? [Hw1 Hw2] Hws]; subst.
        constructor; [|done]. split; [done|]. simpl. by constructor.
Qed.

Lemma split_whitespace_unfold c a :
  split_whitespace (String c a)
  = if is_space c then split_whitespace a
    else
      match a with
      | EmptyString => [String c EmptyString]
      | String c' _ =>
          if is_space c' then String c EmptyString :: split_whitespace a
          else
            match split_whitespace a with
            | [] => [String c EmptyString]
            | w :: ws => String c w :: ws
            end
      end.
Proof. reflexivity. Qed.

(** A word followed by a space is the first word of the split. *)
Lemma split_whitespace_word_space w rest :
  word w ->
  split_whitespace (w +:+ String " " rest) = w :: split_whitespace rest.
Proof.
  intros [Hne Hw]. induction w as [|c w IH]; [done|]. clear Hne.
  simpl in Hw. inversion Hw as [|? ? Hc Hw']; subst.
  change (String c w +:+ String " " rest)
    with (String c (w +:+ String " " rest)).
  rewrite split_whitespace_unfold, Hc.
  destruct w as [|c' w'].
  - change ("" +:+ String " " rest) with (String " " rest).
    change (is_space " ") with true. cbv iota.
    by rewrite (split_whitespace_unfold " " rest).
  - change (String c' w' +:+ String " " rest)
      with (String c' (w' +:+ String " " rest)) in *.
    inversion Hw' as [|? ? Hc' _]; subst.
    rewrite Hc'. by rewrite IH.
Qed.

Lemma split_whitespace_word w : word w -> split_whitespace w = [w].
Proof.
  intros [Hne Hw]. induction w as [|c w IH]; [done|]. clear Hne.
  simpl in Hw. inversion Hw as [|? ? Hc Hw']; subst.
  rewrite split_whitespace_unfold, Hc.
  destruct w as [|c' w']; [done|].
  inversion Hw' as [|? ? Hc' _]; subst. rewrite Hc'. by rewrite IH.
Qed.

(** The words come back when they are joined by single spaces and split
    again. *)
Lemma split_whitespace_join ws :
  Forall word ws -> split_whitespace (join " " ws) = ws.
Proof.
  induction ws as [|w ws IH]; [done|]. intros Hall.
  inversion Hall as [|? ? Hw Hws]; subst. specialize (IH Hws).
  destruct ws as [|w' ws]; [by apply split_whitespace_word|].
  rewrite join_cons by done.
  change (w +:+ " " +:+ join " " (w' :: ws))
    with (w +:+ String " " (join " " (w' :: ws))).
  by rewrite split_whitespace_word_space, IH.
Qed.

(** X6. The argument vector that [ens_main] makes of a sub-run string
    with [split()] has no empty argument and no argument with white space
    in it, however the string is spaced; and the vector is a fixed point:
    joined by single spaces and split again it is the same vector. *)
Theorem X6_main_args_words (a : string) :
  Forall word (split_whitespace a)
  /\ split_whitespace (join " " (split_whitespace a)) = split_whitespace a.
Proof.
  split; [apply split_whitespace_words|].
  apply split_whitespace_join, split_whitespace_words.
Qed.

End EnsMainExtra.

Module LearnerExtra.
Import Learner LearnerSpec.

Local Open Scope Q_scope.

(** The step numbers of the training batches of a run, in order. *)
Definition batch_steps (tr : list event) : list Z :=
  omap (fun ev => match ev with TrainBatch _ step => Some step | _ => None end)
       tr.

(** The epochs at which the embedding was unfrozen, in order. *)
Definition unfreezes (tr : list event) : list Z :=
  omap (fun ev => match ev with Unfreeze e => Some e | _ => None end) tr.

Lemma range_from_snoc start n :
  range_from start (S n) = (range_from start n ++ [start + Z.of_nat n]%Z)%list.
Proof.
  revert start. induction n as [|n IH]; intros start.
  - simpl. by rewrite Z.add_0_r.
  - change (range_from start (S (S n)))
      with (start :: range_from (start + 1) (S n)).
    rewrite IH. simpl. do 3 f_equal. lia.
Qed.

Section FitExtra.

Variables (epoch eval_every : Z) (tresh : Q) (early_stop warmup_epoch : Z).
Variable f1_metric : Z -> Z -> Z -> Q.
Variable train_dl : Z -> nat.
Variable train_loss : Z -> Q.
Variable val_dl : Z -> list val_batch.

Local Abbreviation check := (early_stop_check early_stop warmup_epoch).
Local Abbreviation evaluate' := (evaluate tresh f1_metric val_dl).
Local Abbreviation after_batch' := (after_batch train_loss).
Local Abbreviation train_step' :=
  (train_step eval_every tresh f1_metric train_loss val_dl).
Local Abbreviation train_batches' :=
  (train_batches eval_every tresh f1_metric train_loss val_dl).
Local Abbreviation train_epoch' :=
  (train_epoch eval_every tresh warmup_epoch f1_metric train_dl train_loss
     val_dl).
Local Abbreviation epochs_loop' :=
  (epochs_loop eval_every tresh early_stop warmup_epoch f1_metric train_dl
     train_loss val_dl).
Local Abbreviation fit_loop' :=
  (fit_loop epoch eval_every tresh early_stop warmup_epoch f1_metric train_dl
     train_loss val_dl).
Local Abbreviation fit' :=
  (fit epoch eval_every tresh early_stop warmup_epoch f1_metric train_dl
     train_loss val_dl).
Local Abbreviation top_state' :=
  (top_state eval_every tresh early_stop warmup_epoch f1_metric train_dl
     train_loss val_dl).
Local Abbreviation eval_f1' := (eval_f1 tresh f1_metric val_dl).
Local Abbreviation eval_info' := (eval_info tresh f1_metric val_dl).

(** An invariant of the bookkeeping and of every training step holds
    when the loop returns. *)
Lemma fit_loop_step_ind (P : fit_state -> Prop) info_file :
  P (initial_state info_file) ->
  (forall e st, P st -> P (check e st).2) ->
  (forall e st, P st -> P (unfreeze warmup_epoch e st)) ->
  (forall e st st', P st -> train_step' e st = Some st' -> P st') ->
  forall final, fit_loop' info_file = Some final -> P final.
Proof.
  intros Hinit Hcheck Hunf Hstep final.
  assert (Hbatches : forall n e st st',
             P st -> train_batches' n e st = Some st' -> P st').
  { induction n as [|n IH]; intros e st st' HP; simpl.
    - by intros [= <-].
    - destruct (train_step' e st) as [st1|] eqn:Hs; [|done]. simpl.
      apply IH. by eapply Hstep. }
  unfold fit_loop. generalize (range epoch) (initial_state info_file) Hinit.
  intros es. induction es as [|e es IH]; intros st HP; simpl.
  - by intros [= <-].
  - pose proof (Hcheck e st HP) as HP1.
    destruct (check e st) as [[] st1]; simpl in HP1.
    + unfold train_epoch.
      destruct (train_batches' (train_dl e) e (unfreeze warmup_epoch e st1))
        as [st2|] eqn:Hb; [|done]. simpl.
      apply IH. eapply Hbatches; [|exact Hb]. by apply Hunf.
    + by intros [= <-].
Qed.

(** X8. The step counter is global: the training batches of a run that
    returns are numbered 1, 2, 3, ... through all epochs without a
    restart, the counter ends at their number, and [losses] holds the
    loss of each of them in that order. *)
Theorem X8_steps_are_consecutive info_file final :
  fit_loop' info_file = Some final ->
  (0 <= step final)%Z
  /\ batch_steps (trace final) = range_from 1 (Z.to_nat (step final))
  /\ losses final = map train_loss (batch_steps (trace final)).
Proof.
  revert final. apply fit_loop_ind.
  - done.
  - intros e st H.
    assert (check e st = (Continue, st) \/ step (check e st).2 = step st
            /\ trace (check e st).2 = trace st
            /\ losses (check e st).2 = losses st) as [->| (-> & -> & ->)];
      [|done|done].
    right. unfold early_stop_check.
    repeat match goal with |- context [if ?b then _ else _] => destruct b end;
      done.
  - intros e st (H1 & H2 & H3). unfold unfreeze. destruct (_ && _); [|done].
    simpl. unfold batch_steps in *. rewrite omap_app. simpl.
    by rewrite app_nil_r.
  - intros e st (H1 & H2 & H3). simpl. unfold batch_steps in *.
    rewrite omap_app. simpl. rewrite H3, H2, map_app. simpl.
    split; [lia|]. split; [|done].
    replace (Z.to_nat (step st + 1)) with (S (Z.to_nat (step st))) by lia.
    rewrite range_from_snoc. do 2 f_equal. lia.
  - intros e st (H1 & H2 & H3).
    destruct (evaluate_cases tresh f1_metric val_dl e st) as [[_ ->]|[_ ->]];
      simpl; [|done].
    unfold batch_steps in *. rewrite omap_app. simpl.
    by rewrite app_nil_r.
Qed.

(** X9. A validation pass is run after exactly those training batches
    whose global step number is a multiple of [eval_every]: the steps
    recorded in [val_record] are those batch steps, in order. *)
Theorem X9_validation_every_eval_every info_file final :
  fit_loop' info_file = Some final ->
  map ve_step (val_record final)
  = List.filter (fun s => (s mod eval_every =? 0)%Z)
                (batch_steps (trace final)).
Proof.
  revert final. apply fit_loop_step_ind.
  - done.
  - intros e st H.
    destruct (check_frame early_stop warmup_epoch e st) as (-> & -> & _). done.
  - intros e st H. unfold unfreeze. destruct (_ && _); [|done]. simpl.
    unfold batch_steps in *. rewrite omap_app. simpl. by rewrite app_nil_r.
  - intros e st st' H Hs.
    apply train_step_cases in Hs as [_ [[Hm ->]|[Hm ->]]].
    + assert (Hf : List.filter (fun s => (s mod eval_every =? 0)%Z)
                     (batch_steps (trace st ++ [TrainBatch e (step st + 1)%Z]))
                   = (map ve_step (val_record st) ++ [(step st + 1)%Z])%list).
      { unfold batch_steps in *. rewrite omap_app, List.filter_app, <- H. simpl.
        by rewrite Hm. }
      destruct (evaluate_cases tresh f1_metric val_dl e (after_batch' e st))
        as [[_ ->]|[_ ->]]; simpl.
      * unfold batch_steps in *. rewrite omap_app. simpl. rewrite app_nil_r.
        rewrite Hf. by rewrite map_app.
      * rewrite Hf. by rewrite map_app.
    + simpl. unfold batch_steps in *. rewrite omap_app, List.filter_app, <- H.
      simpl. destruct (Z.eqb_spec ((step st + 1) mod eval_every) 0); [done|].
      by rewrite app_nil_r.
Qed.

(** The save events of a run. *)
Definition saves (tr : list event) : list event := List.filter is_save tr.

Lemma saves_snoc_save tr e s info :
  saves (tr ++ [Save e s info]) = (saves tr ++ [Save e s info])%list.
Proof. unfold saves. by rewrite List.filter_app. Qed.

Lemma saves_snoc_other tr ev :
  is_save ev = false -> saves (tr ++ [ev]) = saves tr.
Proof.
  intros H. unfold saves. rewrite List.filter_app. simpl. rewrite H.
  by rewrite app_nil_r.
Qed.

(** X10. When the loop returns, the info file describes the last
    checkpoint of the run: it is the record saved last, which holds the
    epoch and the step of that save and, as [f1_score], the final best F1
    rounded; [fit] then loads it back, to print it.  A run that saved
    nothing leaves the file as it was, and [fit] raises at [load] when
    there was none. *)
Theorem X10_info_file_is_last_checkpoint info_file final :
  fit_loop' info_file = Some final ->
  (saves (trace final) = [] ->
   best_info_file final = info_file
   /\ fit' info_file = (fun m_info => (final, m_info)) <$> info_file)
  /\ (forall e s info,
        last (saves (trace final)) = Some (Save e s info) ->
        best_info_file final = Some info
        /\ fit' info_file = Some (final, info)
        /\ ("best_ep", PyInt e) ∈ info /\ ("step", PyInt s) ∈ info
        /\ ("f1_score", round (PyFloat (max_f1 final)) 4) ∈ info).
Proof.
  intros Hfit.
  assert (Hinv :
            (saves (trace final) = [] /\ best_info_file final = info_file)
            \/ exists e s info,
                 last (saves (trace final)) = Some (Save e s info)
                 /\ best_info_file final = Some info
                 /\ ("best_ep", PyInt e) ∈ info /\ ("step", PyInt s) ∈ info
                 /\ ("f1_score", round (PyFloat (max_f1 final)) 4) ∈ info).
  { revert final Hfit. apply fit_loop_ind.
    - by left.
    - intros e st H.
      destruct (check_frame early_stop warmup_epoch e st) as (-> & _ & -> & ->).
      done.
    - intros e st H. unfold unfreeze. destruct (_ && _); [|done]. simpl.
      by rewrite saves_snoc_other.
    - intros e st H. simpl. by rewrite saves_snoc_other.
    - intros e st H.
      destruct (evaluate_cases tresh f1_metric val_dl e st) as [[_ ->]|[_ ->]];
        simpl; [|done].
      right. exists e, (step st), (eval_info' e st).
      rewrite saves_snoc_save, last_snoc. split; [done|]. split; [done|].
      rewrite eval_info_map. repeat split.
      + by left.
      + right. by left.
      + do 4 right. by left. }
  unfold fit. rewrite Hfit. simpl. split.
  - intros Hnone. destruct Hinv as [[_ ->]|(e & s & info & Hlast & _)].
    + split; [done|]. by destruct info_file.
    + by rewrite Hnone in Hlast.
  - intros e s info Hlast.
    destruct Hinv as [[Hnone _]|(e' & s' & info' & Hlast' & -> & H1 & H2 & H3)].
    + by rewrite Hnone in Hlast.
    + rewrite Hlast in Hlast'. injection Hlast' as <- <- <-. done.
Qed.

(** ***** Unfreezing *)

Definition is_unfreeze (ev : event) : bool :=
  match ev with
  | Unfreeze _ => true
  | _ => false
  end.

(** The events of the batches of epoch [e]: of that epoch, and no
    unfreezing. *)
Definition batch_events (e : Z) (evs : list event) : Prop :=
  Forall (fun ev => event_epoch ev = e /\ is_unfreeze ev = false) evs.

Lemma train_batches_events n e st st' :
  train_batches' n e st = Some st' ->
  exists evs,
    trace st' = (trace st ++ evs)%list /\ batch_events e evs
    /\ fine_tuning st' = fine_tuning st
    /\ ((0 < n)%nat -> exists s, TrainBatch e s ∈ evs).
Proof.
  revert st. induction n as [|n IH]; intros st; simpl.
  - intros [= <-]. exists []. rewrite app_nil_r. repeat split; [constructor|lia].
  - destruct (train_step' e st) as [st1|] eqn:Hs; [|done]. simpl. intros Hb.
    destruct (IH _ Hb) as (evs & Htr & Hev & Hft & _).
    assert (exists evs1,
               trace st1 = (trace st ++ TrainBatch e (step st + 1)%Z :: evs1)%list
               /\ batch_events e evs1 /\ fine_tuning st1 = fine_tuning st)
      as (evs1 & Htr1 & Hev1 & Hft1).
    { apply train_step_cases in Hs as [_ [[_ ->]|[_ ->]]].
      - destruct (evaluate_cases tresh f1_metric val_dl e (after_batch' e st))
          as [[_ ->]|[_ ->]]; simpl.
        + eexists [_]. rewrite <- app_assoc. repeat split. by repeat constructor.
        + exists []. repeat split. constructor.
      - exists []. repeat split. constructor. }
    exists (TrainBatch e (step st + 1)%Z :: evs1 ++ evs)%list.
    rewrite Htr, Htr1, <- app_assoc. simpl. repeat split.
    + constructor; [done|]. by apply Forall_app.
    + congruence.
    + intros _. eexists. by left.
Qed.

Lemma check_fine_tuning e st : fine_tuning (check e st).2 = fine_tuning st.
Proof.
  unfold early_stop_check.
  repeat match goal with |- context [if ?b then _ else _] => destruct b end; done.
Qed.

(** The first epoch of fine-tuning. *)
Definition first_tuned : Z := Z.max warmup_epoch 0.

(** The trace of a run whose embedding is still frozen, and of one whose
    embedding has been unfrozen. *)
Definition frozen_trace (tr : list event) : Prop :=
  Forall (fun ev => (event_epoch ev < first_tuned)%Z /\ is_unfreeze ev = false)
         tr.

Definition unfrozen_trace (tr : list event) : Prop :=
  exists before after,
    tr = (before ++ Unfreeze first_tuned :: after)%list
    /\ frozen_trace before
    /\ Forall (fun ev => (first_tuned <= event_epoch ev)%Z
                         /\ is_unfreeze ev = false) after.

Lemma top_state_unfreeze info_file n st :
  top_state' info_file n = Some st ->
  ((Z.of_nat n <= first_tuned)%Z ->
   fine_tuning st = false /\ frozen_trace (trace st))
  /\ ((first_tuned < Z.of_nat n)%Z ->
      fine_tuning st = true /\ unfrozen_trace (trace st)).
Proof.
  unfold unfrozen_trace, frozen_trace, first_tuned. revert st.
  induction n as [|n IH]; intros st'.
  - intros [= <-]. simpl. split; [|lia]. intros _. split; [done|constructor].
  - intros H. pose proof H as Htop'.
    apply top_state_S_inv in H as (st & st1 & Htop & Hc & Hep).
    destruct (IH st Htop) as [Hlow Hhigh]. clear IH.
    pose proof (check_trace early_stop warmup_epoch (Z.of_nat n) st) as Htr1.
    pose proof (check_fine_tuning (Z.of_nat n) st) as Hft1.
    rewrite Hc in Htr1, Hft1. simpl in Htr1, Hft1.
    unfold train_epoch in Hep.
    apply train_batches_events in Hep as (evs & Htr & Hev & Hft & _).
    unfold unfreeze in Htr, Hft. rewrite Hft1 in Htr, Hft.
    destruct (Z_lt_le_dec (Z.of_nat n) (Z.max warmup_epoch 0)) as [Hlt|Hge].
    + destruct (Hlow ltac:(lia)) as [Hf Hfr]. rewrite Hf in Htr, Hft.
      destruct (Z.leb_spec warmup_epoch (Z.of_nat n)); [lia|].
      simpl in Htr, Hft. split; [|lia]. intros _. rewrite Htr, Htr1.
      split; [congruence|]. apply Forall_app. split; [done|].
      eapply Forall_impl; [exact Hev|]. intros ev [? ?]. split; [lia|done].
    + split; [lia|]. intros _.
      destruct (decide (Z.of_nat n = Z.max warmup_epoch 0)) as [Heq|Hne].
      * destruct (Hlow ltac:(lia)) as [Hf Hfr]. rewrite Hf in Htr, Hft.
        destruct (Z.leb_spec warmup_epoch (Z.of_nat n)); [|lia].
        simpl in Htr, Hft. split; [congruence|].
        exists (trace st), evs. rewrite Htr, Htr1, <- app_assoc, Heq.
        repeat split; [done|].
        eapply Forall_impl; [exact Hev|]. intros ev [? ?]. split; [lia|done].
      * destruct (Hhigh ltac:(lia)) as [Hf (before & after & Hsplit & Hb & Ha)].
        rewrite Hf in Htr, Hft. simpl in Htr, Hft. split; [congruence|].
        exists before, (after ++ evs)%list.
        rewrite Htr, Htr1, Hsplit, <- app_assoc. repeat split; [done|].
        apply Forall_app. split; [done|].
        eapply Forall_impl; [exact Hev|]. intros ev [? ?].
        split; [lia|done].
Qed.

(** X11. The embedding is unfrozen at most once in a run, and exactly at
    the top of epoch [max(warmup_epoch, 0)]: either the run has no
    unfreezing and all it did belongs to earlier epochs, or its events
    are those of the earlier epochs, then the unfreezing, then those of
    the later epochs, with every batch from that epoch on trained after
    the unfreezing. *)
Theorem X11_unfrozen_once_at_warmup info_file final :
  fit_loop' info_file = Some final ->
  (frozen_trace (trace final) /\ unfreezes (trace final) = [])
  \/ (unfrozen_trace (trace final)
      /\ unfreezes (trace final) = [first_tuned]).
Proof.
  intros Hfit.
  assert (Hnone : forall evs,
             Forall (fun ev => is_unfreeze ev = false) evs -> unfreezes evs = []).
  { induction evs as [|ev evs IH]; [done|]. intros Hall.
    inversion Hall as [|? ? Hev Hevs]; subst. unfold unfreezes in *.
    destruct ev; try done; simpl; by apply IH. }
  destruct (fit_loop_final_top _ _ _ _ _ _ _ _ _ _ _ Hfit)
    as (m & st_m & Htop & ->).
  destruct (top_state_unfreeze _ _ _ Htop) as [Hlow Hhigh].
  destruct (Z_lt_le_dec first_tuned (Z.of_nat m)) as [Hlt|Hge].
  - right. destruct (Hhigh Hlt) as [_ Hun]. split; [done|].
    destruct Hun as (before & after & -> & Hb & Ha).
    assert (unfreezes (before ++ Unfreeze first_tuned :: after)
            = (unfreezes before ++ first_tuned :: unfreezes after)%list) as ->
      by (unfold unfreezes; by rewrite omap_app).
    rewrite (Hnone before), (Hnone after); [done| |].
    + eapply Forall_impl; [exact Ha|]. by intros ev [_ ?].
    + eapply Forall_impl; [exact Hb|]. by intros ev [_ ?].
  - left. destruct (Hlow Hge) as [_ Hfr]. split; [done|].
    apply Hnone. eapply Forall_impl; [exact Hfr|]. by intros ev [_ ?].
Qed.

(** ***** Patience *)

(** The number of epochs without improvement that ends a run: values of
    [early_stop] below 1 act as 1. *)
Definition patience : Z := Z.max early_stop 1.

Lemma improved_in_app_other j (tr evs : list event) :
  Forall (fun ev => event_epoch ev <> j) evs ->
  improved_in j (tr ++ evs) <-> improved_in j tr.
Proof.
  intros Hevs. unfold improved_in. split.
  - intros (s & info & Hin). apply elem_of_app in Hin as [Hin|Hin]; [eauto|].
    rewrite Forall_forall in Hevs. by apply Hevs in Hin.
  - intros (s & info & Hin). exists s, info. apply elem_of_app. by left.
Qed.

(** At the top of every epoch the counter is below the patience, and it
    counts epochs without improvement that come one after the other, up
    to the last but one, since the first epoch of fine-tuning. *)
Lemma top_state_streak info_file n st :
  top_state' info_file n = Some st ->
  (no_improve_epoch st < patience)%Z
  /\ ((Z.of_nat n <= first_tuned)%Z -> no_improve_epoch st = 0%Z)
  /\ ((first_tuned < Z.of_nat n)%Z ->
      (0 <= no_improve_epoch st)%Z
      /\ (first_tuned <= Z.of_nat n - 1 - no_improve_epoch st)%Z
      /\ forall j,
           (Z.of_nat n - 1 - no_improve_epoch st <= j < Z.of_nat n - 1)%Z ->
           ~ improved_in j (trace st)).
Proof.
  unfold patience, first_tuned. revert st.
  induction n as [|n IH]; intros st'.
  - intros [= <-]. simpl. split; [lia|]. split; [done|lia].
  - intros H. apply top_state_S_inv in H as (st & st1 & Htop & Hc & Hep).
    destruct (IH st Htop) as (Hlt & Hlow & Hhigh). clear IH.
    destruct (top_state_inv _ _ _ _ _ _ _ _ _ _ _ Htop)
      as (Hev & _ & Hpre & Hpost).
    apply train_epoch_effect in Hep as (evs & Htr & Hevs & Hcnt & _).
    pose proof (check_trace early_stop warmup_epoch (Z.of_nat n) st) as Htr1.
    rewrite Hc in Htr1. simpl in Htr1. rewrite Htr1 in Htr.
    assert (Hstable : forall j, (j < Z.of_nat n)%Z ->
                        improved_in j (trace st') <-> improved_in j (trace st)).
    { intros j Hj. rewrite Htr. apply improved_in_app_other.
      eapply Forall_impl; [exact Hevs|]. intros ev ?. cbv beta in *. lia. }
    rewrite Hcnt.
    destruct (Z_lt_le_dec (Z.of_nat n) warmup_epoch) as [Hbefore|Hafter].
    { rewrite check_before_warmup in Hc by done. injection Hc as <-.
      rewrite Hlow by lia. split; [lia|]. split; [done|lia]. }
    destruct (no_improve_in_previous_epoch st) eqn:Hflag.
    + destruct (check_flag_set early_stop warmup_epoch _ _ Hafter Hflag)
        as (Hc1 & Hbr & _).
      rewrite Hc in Hc1, Hbr. simpl in Hc1, Hbr. rewrite Hc1.
      assert (~ (early_stop <= no_improve_epoch st + 1)%Z) as Hno
        by (intros H; by apply Hbr in H).
      assert (Hn : (Z.max warmup_epoch 0 < Z.of_nat n)%Z).
      { destruct (Z_lt_le_dec (Z.max warmup_epoch 0) (Z.of_nat n)); [done|].
        assert (true = false) by (apply Hpre; lia). discriminate. }
      destruct (Hhigh Hn) as (H0 & Hfirst & Hrun).
      split; [lia|]. split; [lia|]. intros _. split; [lia|]. split; [lia|].
      intros j Hj. rewrite Hstable by lia.
      destruct (decide (j = Z.of_nat n - 1)%Z) as [->|Hne].
      * apply Hpost; [lia|lia|done].
      * apply Hrun. lia.
    + destruct (check_flag_clear early_stop warmup_epoch _ _ Hafter Hflag)
        as (_ & Hc1 & _).
      rewrite Hc in Hc1. simpl in Hc1. rewrite Hc1.
      split; [lia|]. split; [done|]. intros _. split; [lia|]. split; [lia|].
      intros j Hj. lia.
Qed.

(** A [break] needs a full streak of epochs of fine-tuning. *)
Lemma break_needs_streak info_file (n : nat) st :
  top_state' info_file n = Some st ->
  (check (Z.of_nat n) st).1 = Break ->
  (first_tuned + patience <= Z.of_nat n)%Z.
Proof.
  intros Htop Hbreak.
  destruct (top_state_streak _ _ _ Htop) as (Hlt & Hlow & Hhigh).
  destruct (top_state_inv _ _ _ _ _ _ _ _ _ _ _ Htop) as (_ & _ & Hpre & _).
  unfold patience, first_tuned in *.
  assert (Hafter : (warmup_epoch <= Z.of_nat n)%Z).
  { destruct (Z_lt_le_dec (Z.of_nat n) warmup_epoch) as [Hb|]; [|done].
    by rewrite check_before_warmup in Hbreak. }
  assert (Hflag : no_improve_in_previous_epoch st = true).
  { destruct (no_improve_in_previous_epoch st) eqn:Hf; [done|].
    destruct (check_flag_clear early_stop warmup_epoch _ _ Hafter Hf)
      as (Hcont & _). congruence. }
  assert (Hn : (Z.max warmup_epoch 0 < Z.of_nat n)%Z).
  { destruct (Z_lt_le_dec (Z.max warmup_epoch 0) (Z.of_nat n)); [done|].
    assert (no_improve_in_previous_epoch st = false) by (apply Hpre; lia).
    congruence. }
  destruct (Hhigh Hn) as (H0 & Hfirst & _).
  destruct (check_flag_set early_stop warmup_epoch _ _ Hafter Hflag)
    as (_ & Hbr & _).
  apply Hbr in Hbreak. lia.
Qed.

(** X12. When the loop is left by [break] at the top of epoch [n], the
    counter is exactly the patience [max(early_stop, 1)], the patience
    many epochs just before [n] all ran without a checkpoint, and all of
    them are epochs of fine-tuning, so [n] is at least
    [max(warmup_epoch, 0)] plus the patience. *)
Theorem X12_break_after_patience info_file (n : nat) st :
  top_state' info_file n = Some st ->
  (check (Z.of_nat n) st).1 = Break ->
  no_improve_epoch (check (Z.of_nat n) st).2 = patience
  /\ (first_tuned + patience <= Z.of_nat n)%Z
  /\ forall j, (Z.of_nat n - patience <= j < Z.of_nat n)%Z ->
               ~ improved_in j (trace st).
Proof.
  intros Htop Hbreak.
  destruct (top_state_streak _ _ _ Htop) as (Hlt & Hlow & Hhigh).
  destruct (top_state_inv _ _ _ _ _ _ _ _ _ _ _ Htop)
    as (_ & _ & Hpre & Hpost).
  unfold patience, first_tuned in *.
  assert (Hafter : (warmup_epoch <= Z.of_nat n)%Z).
  { destruct (Z_lt_le_dec (Z.of_nat n) warmup_epoch) as [Hb|]; [|done].
    by rewrite check_before_warmup in Hbreak. }
  assert (Hflag : no_improve_in_previous_epoch st = true).
  { destruct (no_improve_in_previous_epoch st) eqn:Hf; [done|].
    destruct (check_flag_clear early_stop warmup_epoch _ _ Hafter Hf)
      as (Hcont & _). congruence. }
  assert (Hn : (Z.max warmup_epoch 0 < Z.of_nat n)%Z).
  { destruct (Z_lt_le_dec (Z.max warmup_epoch 0) (Z.of_nat n)); [done|].
    assert (no_improve_in_previous_epoch st = false) by (apply Hpre; lia).
    congruence. }
  destruct (Hhigh Hn) as (H0 & Hfirst & Hrun).
  destruct (check_flag_set early_stop warmup_epoch _ _ Hafter Hflag)
    as (Hc1 & Hbr & _).
  apply Hbr in Hbreak. rewrite Hc1. split; [lia|]. split; [lia|].
  intros j Hj. destruct (decide (j = Z.of_nat n - 1)%Z) as [->|Hne].
  - apply Hpost; [lia|lia|done].
  - apply Hrun. lia.
Qed.

(** X13. Early stopping never cuts the first
    [max(warmup_epoch, 0) + max(early_stop, 1)] epochs: in a run that
    returns, every epoch below that number and below [epoch] that has a
    batch is trained. *)
Theorem X13_epochs_always_trained info_file final (e : nat) :
  fit_loop' info_file = Some final ->
  (Z.of_nat e < epoch)%Z ->
  (Z.of_nat e < first_tuned + patience)%Z ->
  (0 < train_dl (Z.of_nat e))%nat ->
  exists s, TrainBatch (Z.of_nat e) s ∈ trace final.
Proof.
  intros Hfit He Hp Hb.
  assert (exists m st_m,
             top_state' info_file m = Some st_m /\ trace final = trace st_m
             /\ (e < m)%nat) as (m & st_m & Htop & Htr & Hm).
  { apply fit_loop_inv in Hfit as [(n & st & Hn & Htop & Hc)|Htop].
    - exists n, st. split; [done|]. split.
      + pose proof (check_trace early_stop warmup_epoch (Z.of_nat n) st) as Ht.
        by rewrite Hc in Ht.
      + assert ((check (Z.of_nat n) st).1 = Break) as Hbr by (by rewrite Hc).
        pose proof (break_needs_streak _ _ _ Htop Hbr). lia.
    - exists (Z.to_nat epoch), final. split; [done|]. split; [done|lia]. }
  destruct (top_state_prefix _ _ _ _ _ _ _ _ _ _ (S e) _ Htop ltac:(lia))
    as (st_e & Htop_e & [k Hpre]).
  apply top_state_S_inv in Htop_e as (st0 & st1 & _ & _ & Hep).
  unfold train_epoch in Hep.
  apply train_batches_events in Hep as (evs & Hevs & _ & _ & Hhas).
  destruct (Hhas Hb) as [s Hs]. exists s.
  rewrite Htr, Hpre, Hevs. apply elem_of_app. left. apply elem_of_app. by right.
Qed.

(** ***** A run that never validates *)

(** With [eval_every = 0] no batch is ever completed, so the epochs that
    the loop gets through have no batch, nothing is validated, and the
    bookkeeping alone decides how far the loop gets: it raises when it
    comes to an epoch with a batch before it stops early. *)
Lemma epochs_loop_without_validation (k : nat) (a : Z) st :
  eval_every = 0%Z -> (0 <= a <= first_tuned + patience)%Z ->
  ((a <= first_tuned)%Z -> no_improve_in_previous_epoch st = false) ->
  ((first_tuned < a)%Z ->
   no_improve_in_previous_epoch st = true
   /\ no_improve_epoch st = (a - first_tuned - 1)%Z) ->
  epochs_loop' (range_from a k) st = None
  <-> exists e, (a <= e < a + Z.of_nat k)%Z
                /\ (e < first_tuned + patience)%Z /\ (0 < train_dl e)%nat.
Proof.
  intros Hz. unfold first_tuned, patience. revert a st.
  induction k as [|k IH]; intros a st Ha Hlow Hhigh.
  { simpl. split; [done|]. intros (e & He & _). lia. }
  assert (Hnext : forall st1,
             (a < Z.max warmup_epoch 0 + Z.max early_stop 1)%Z ->
             ((a + 1 <= Z.max warmup_epoch 0)%Z ->
              no_improve_in_previous_epoch st1 = false) ->
             ((Z.max warmup_epoch 0 < a + 1)%Z ->
              no_improve_in_previous_epoch st1 = true
              /\ no_improve_epoch st1 = (a + 1 - Z.max warmup_epoch 0 - 1)%Z) ->
             (st2 ← train_epoch' a st1; epochs_loop' (range_from (a + 1) k) st2)
             = None
             <-> exists e, (a <= e < a + Z.of_nat (S k))%Z
                           /\ (e < Z.max warmup_epoch 0 + Z.max early_stop 1)%Z
                           /\ (0 < train_dl e)%nat).
  { intros st1 Hlt H1 H2. unfold train_epoch.
    destruct (train_dl a) as [|m] eqn:Hb; simpl.
    - rewrite IH; [| lia | | ].
      + split; intros (e & He & Hp & Hd); exists e; (split; [|done]); [lia|].
        destruct (decide (e = a)) as [->|]; [|lia]. rewrite Hb in Hd. lia.
      + intros Hle. unfold unfreeze.
        destruct (negb (fine_tuning st1) && (warmup_epoch <=? a)%Z); simpl;
          by apply H1.
      + intros Hle. unfold unfreeze.
        destruct (negb (fine_tuning st1) && (warmup_epoch <=? a)%Z); simpl;
          by apply H2.
    - unfold train_step. rewrite Hz. simpl. split; [|done]. intros _.
      exists a. rewrite Hb. repeat split; lia. }
  change (range_from a (S k)) with (a :: range_from (a + 1) k).
  cbn [epochs_loop]. unfold early_stop_check.
  destruct (Z.leb_spec warmup_epoch a) as [Hw|Hw].
  - destruct (no_improve_in_previous_epoch st) eqn:Hflag.
    + assert (Z.max warmup_epoch 0 < a)%Z as Hgt.
      { destruct (Z_lt_le_dec (Z.max warmup_epoch 0) a) as [|Hle]; [done|].
        apply Hlow in Hle. congruence. }
      destruct (Hhigh Hgt) as [_ Hcnt]. rewrite Hcnt.
      destruct (Z.leb_spec early_stop (a - Z.max warmup_epoch 0 - 1 + 1))
        as [Hb|Hb].
      * split; [done|]. intros (e & He & Hp & _). lia.
      * apply Hnext; [lia| |]; simpl; [lia|]. intros _. split; [done|lia].
    + apply Hnext; simpl.
      * lia.
      * intros Hle. exfalso. lia.
      * intros _. split; [done|].
        destruct (Z_lt_le_dec (Z.max warmup_epoch 0) a) as [Hgt|Hle]; [|lia].
        apply Hhigh in Hgt as [Hgt _]. congruence.
  - apply Hnext; [lia| |].
    + intros _. apply Hlow. lia.
    + intros Hgt. exfalso. lia.
Qed.

(** X7. [fit] divides by [eval_every] at every training batch.  With a
    non-zero [eval_every] the loop always returns.  With
    [eval_every = 0] it raises exactly when it comes to an epoch that has
    a batch: an epoch below [epoch] and below
    [max(warmup_epoch, 0) + max(early_stop, 1)], the epoch at the top of
    which a run that validates nothing stops early. *)
Theorem X7_fit_loop_returns_or_raises info_file :
  let result :=
    fit_loop epoch eval_every tresh early_stop warmup_epoch f1_metric
      train_dl train_loss val_dl info_file in
  (eval_every <> 0%Z -> is_Some result)
  /\ (eval_every = 0%Z ->
      (result = None
       <-> exists e, (0 <= e < epoch)%Z
                     /\ (e < Z.max warmup_epoch 0 + Z.max early_stop 1)%Z
                     /\ (0 < train_dl e)%nat)).
Proof.
  intros result. subst result. split; [apply fit_loop_total|].
  intros Hz. unfold fit_loop, range.
  rewrite (epochs_loop_without_validation _ 0 _ Hz);
    unfold first_tuned, patience; simpl; [|lia|done|lia].
  split; intros (e & He & Hrest); exists e; (split; [lia|done]).
Qed.

End FitExtra.

(** ***** The properties on concrete runs *)

(** A run of two epochs of three batches each, validated after every
    second batch. *)
Definition run3 : option fit_state :=
  fit_loop 2 2 0.5 1 2 Utils.f1_metric (fun _ => 3%nat) (fun _ => 0.3)
    run1_val_dl None.

(** The first run with [eval_every = 0] raises in its first epoch; a run
    of four epochs whose only batch is in epoch 3 stops early at the top
    of that epoch and returns. *)
Lemma X7_fit_loop_returns_or_raises_witness :
  fit_loop 4 0 0.5 1 2 Utils.f1_metric (fun _ => 1%nat) (fun _ => 0.3)
    run1_val_dl None = None
  /\ is_Some (fit_loop 4 0 0.5 1 2 Utils.f1_metric
                (fun e => if (e =? 3)%Z then 1%nat else 0%nat) (fun _ => 0.3)
                run1_val_dl None)
  /\ is_Some run1.
Proof.
  split; [|split].
  - apply (proj2 (X7_fit_loop_returns_or_raises 4 0 0.5 1 2 Utils.f1_metric
                    (fun _ => 1%nat) (fun _ => 0.3) run1_val_dl None) eq_refl).
    exists 0%Z. simpl. lia.
  - vm_compute. eauto.
  - apply (proj1 (X7_fit_loop_returns_or_raises 4 1 0.5 1 2 Utils.f1_metric
                    (fun _ => 1%nat) (fun _ => 0.3) run1_val_dl None)).
    discriminate.
Defined.

Lemma X8_steps_are_consecutive_witness :
  exists final,
    run3 = Some final /\ step final = 6%Z
    /\ batch_steps (trace final) = [1; 2; 3; 4; 5; 6]%Z.
Proof.
  eexists. split; [vm_compute; reflexivity|]. split; [reflexivity|].
  destruct (X8_steps_are_consecutive 2 2 0.5 1 2 Utils.f1_metric
              (fun _ => 3%nat) (fun _ => 0.3) run1_val_dl None _
              ltac:(vm_compute; reflexivity)) as (_ & -> & _).
  reflexivity.
Defined.

Lemma X9_validation_every_eval_every_witness :
  exists final,
    run3 = Some final /\ map ve_step (val_record final) = [2; 4; 6]%Z.
Proof.
  eexists. split; [vm_compute; reflexivity|].
  rewrite (X9_validation_every_eval_every 2 2 0.5 1 2 Utils.f1_metric
             (fun _ => 3%nat) (fun _ => 0.3) run1_val_dl None _
             ltac:(vm_compute; reflexivity)).
  reflexivity.
Defined.

Lemma X10_info_file_is_last_checkpoint_witness :
  exists final info,
    run1 = Some final /\ best_info_file final = Some info
    /\ ("step", PyInt 1) ∈ info
    /\ fit 4 1 0.5 1 2 Utils.f1_metric (fun _ => 1%nat) (fun _ => 0.3)
         run1_val_dl None = Some (final, info).
Proof.
  eexists _, _. split; [vm_compute; reflexivity|].
  destruct (X10_info_file_is_last_checkpoint 4 1 0.5 1 2 Utils.f1_metric
              (fun _ => 1%nat) (fun _ => 0.3) run1_val_dl None _
              ltac:(vm_compute; reflexivity)) as [_ Hlast].
  destruct (Hlast 0%Z 1%Z _ ltac:(vm_compute; reflexivity))
    as (Hfile & Hfit & _ & Hstep & _).
  split; [exact Hfile|]. split; [exact Hstep|exact Hfit].
Defined.

Lemma X11_unfrozen_once_at_warmup_witness :
  exists final, run1 = Some final /\ unfreezes (trace final) = [2%Z].
Proof.
  eexists. split; [vm_compute; reflexivity|].
  destruct (X11_unfrozen_once_at_warmup 4 1 0.5 1 2 Utils.f1_metric
              (fun _ => 1%nat) (fun _ => 0.3) run1_val_dl None _
              ltac:(vm_compute; reflexivity)) as [[_ H]|[_ H]];
    [vm_compute in H; discriminate H|exact H].
Defined.

Lemma X12_break_after_patience_witness :
  exists st,
    run1_top 3 = Some st
    /\ no_improve_epoch (early_stop_check 1 2 3 st).2 = 1%Z
    /\ ~ improved_in 2 (trace st).
Proof.
  eexists. split; [vm_compute; reflexivity|].
  destruct (X12_break_after_patience 1 0.5 1 2 Utils.f1_metric
              (fun _ => 1%nat) (fun _ => 0.3) run1_val_dl None 3 _
              ltac:(vm_compute; reflexivity) ltac:(vm_compute; reflexivity))
    as (Hcnt & _ & Hrun).
  split; [exact Hcnt|]. apply Hrun. unfold patience. lia.
Defined.

Lemma X13_epochs_always_trained_witness :
  exists final s, run1 = Some final /\ TrainBatch 2 s ∈ trace final.
Proof.
  eexists.
  destruct (X13_epochs_always_trained 4 1 0.5 1 2 Utils.f1_metric
              (fun _ => 1%nat) (fun _ => 0.3) run1_val_dl None _ 2
              ltac:(vm_compute; reflexivity) ltac:(reflexivity)
              ltac:(reflexivity) ltac:(simpl; lia)) as [s Hs].
  exists s. split; [vm_compute; reflexivity|exact Hs].
Defined.

(** **** __init__ and predict_probs *)

(** A batch as [predict_probs] sees it: the sigmoid of the model's
    output, the targets and the question identifiers. *)
Record batch : Type := Batch {
  b_prob : list Q;
  b_target : list Z;
  b_qid : list Z
}.

(** A data loader: the batches it yields. *)
Definition loader : Type := list batch.

(** [self.val_dl] after [__init__]: the second of two or three
    dataloaders.  [None] stands for the value [None] that one dataloader
    leaves, and for the attribute that any other number leaves unset;
    both make [dl.init_epoch()] raise. *)
Definition init_val_dl (dataloaders : list loader) : option loader :=
  match dataloaders with
  | [_; val_dl; _] => Some val_dl
  | [_; val_dl] => Some val_dl
  | _ => None
  end.

(** [self.test_dl] after [__init__]: set for three dataloaders only. *)
Definition init_test_dl (dataloaders : list loader) : option loader :=
  match dataloaders with
  | [_; _; test_dl] => Some test_dl
  | _ => None
  end.

(** [predict_probs] on a learner made with [dataloaders]. *)
Definition predict_probs (dataloaders : list loader) (is_test : bool)
  : option (list Q * list Z * list Z) :=
  dl ← (if is_test then init_test_dl dataloaders
        else init_val_dl dataloaders);
  Some (foldl (fun '(y_pred, y_true, ids) b =>
                 ((y_pred ++ b_prob b)%list,
                  (if is_test then y_true else y_true ++ b_target b)%list,
                  (ids ++ b_qid b)%list))
              ([], [], []) dl).

(** [predict_labels] on a learner made with [dataloaders]: the
    predictions of the requested split first, those of the validation
    split inside [_choose_tr]. *)
Definition predict_labels_of (dataloaders : list loader) (is_test : bool)
    (tresh : tresh_arg) (info_file : option info_dict)
  : option ((list Z * list Z * list Z) * option info_dict) :=
  '(y_pred, y_true, ids) ← predict_probs dataloaders is_test;
  match tresh with
  | Fixed _ => predict_labels y_pred y_true ids [] [] tresh info_file
  | Search _ =>
      '(val_pred, val_true, _) ← predict_probs dataloaders false;
      predict_labels y_pred y_true ids val_pred val_true tresh info_file
  end.

Lemma predict_fold (is_test : bool) dl y_pred y_true ids :
  foldl (fun '(y_pred, y_true, ids) b =>
           ((y_pred ++ b_prob b)%list,
            (if is_test then y_true else y_true ++ b_target b)%list,
            (ids ++ b_qid b)%list))
        (y_pred, y_true, ids) dl
  = ((y_pred ++ concat (map b_prob dl))%list,
     (if is_test then y_true else y_true ++ concat (map b_target dl))%list,
     (ids ++ concat (map b_qid dl))%list).
Proof.
  revert y_pred y_true ids. destruct is_test;
    induction dl as [|b dl IH]; intros y_pred y_true ids; simpl;
    rewrite ?IH, <- ?app_assoc, ?app_nil_r; reflexivity.
Qed.

(** X14. [predict_probs] works on the test split only for a learner made
    with three dataloaders, and on the validation split only for one made
    with two or three; otherwise it raises.  When it works it returns the
    probabilities and the identifiers of the batches in loader order, no
    labels for the test split, and the targets in the same order for the
    validation split. *)
Theorem X14_predict_probs (dataloaders : list loader) :
  (is_Some (predict_probs dataloaders true) <-> length dataloaders = 3%nat)
  /\ (is_Some (predict_probs dataloaders false)
      <-> length dataloaders = 2%nat \/ length dataloaders = 3%nat)
  /\ (forall is_test y_pred y_true ids,
        predict_probs dataloaders is_test = Some (y_pred, y_true, ids) ->
        exists dl,
          (if is_test then dataloaders !! 2%nat else dataloaders !! 1%nat)
          = Some dl
          /\ y_pred = concat (map b_prob dl)
          /\ ids = concat (map b_qid dl)
          /\ y_true = if is_test then [] else concat (map b_target dl)).
Proof.
  split; [|split].
  - unfold predict_probs.
    destruct dataloaders as [|a [|b [|c [|d l]]]]; simpl; split;
      try done; try (by intros [? [=]]); try (intros [=]); eauto.
  - unfold predict_probs.
    destruct dataloaders as [|a [|b [|c [|d l]]]]; simpl; split;
      try (by intros [? [=]]); try (by intros [[=]|[=]]); eauto.
  - intros is_test y_pred y_true ids. unfold predict_probs.
    destruct is_test.
    + destruct dataloaders as [|a [|b [|c [|d l]]]]; try done. simpl.
      rewrite (predict_fold true). intros [= <- <- <-]. by exists c.
    + destruct dataloaders as [|a [|b [|c [|d l]]]]; try done; simpl;
        rewrite (predict_fold false); intros [= <- <- <-]; by exists b.
Qed.

Lemma y_label_spec y_pred t :
  length (y_label y_pred t) = length y_pred
  /\ Forall (fun l => l = 0%Z \/ l = 1%Z) (y_label y_pred t).
Proof.
  unfold y_label. split; [by rewrite length_map|].
  apply Forall_map, Forall_forall. intros p _. simpl.
  destruct (Qlt_le_dec p t); auto.
Qed.

(** X15. With a numeric threshold [predict_labels] returns one label, 0
    or 1, for every prediction, in the order of the identifiers, and
    leaves the info file alone; and raising the threshold never turns a
    label 0 into a label 1. *)
Theorem X15_predict_labels_fixed (dataloaders : list loader)
    (is_test : bool) (t1 t2 : Q) info_file y_pred y_true ids :
  t1 <= t2 ->
  predict_probs dataloaders is_test = Some (y_pred, y_true, ids) ->
  exists labels1 labels2,
    predict_labels_of dataloaders is_test (Fixed t1) info_file
    = Some ((labels1, y_true, ids), info_file)
    /\ predict_labels_of dataloaders is_test (Fixed t2) info_file
       = Some ((labels2, y_true, ids), info_file)
    /\ length labels1 = length y_pred
    /\ Forall (fun l => l = 0%Z \/ l = 1%Z) labels1
    /\ Forall2 Z.le labels2 labels1.
Proof.
  intros Hle Hprobs. unfold predict_labels_of. rewrite Hprobs. simpl.
  eexists _, _. split; [reflexivity|]. split; [reflexivity|].
  destruct (y_label_spec y_pred t1) as [Hlen Hbin].
  split; [done|]. split; [done|].
  unfold y_label. clear -Hle. induction y_pred as [|p y_pred IH]; simpl;
    constructor; [|done].
  destruct (Qlt_le_dec p t2) as [H2|H2], (Qlt_le_dec p t1) as [H1|H1];
    try done.
  exfalso. lra.
Qed.

(** **** Dictionaries *)

Lemma keys_dict_set {V} k (v : V) d :
  keys (dict_set k v d) = if decide (k ∈ keys d) then keys d
                          else (keys d ++ [k])%list.
Proof.
  unfold keys. induction d as [|[k' v'] d IH]; simpl; [done|].
  destruct (String.eqb_spec k' k) as [->|Hne]; simpl.
  - rewrite decide_True by left. done.
  - rewrite IH. destruct (decide (k ∈ map fst d)) as [Hin|Hnot].
    + rewrite decide_True by (by right). done.
    + rewrite decide_False; [done|]. rewrite not_elem_of_cons. split; congruence.
Qed.

Lemma dict_set_NoDup {V} k (v : V) d :
  NoDup (keys d) -> NoDup (keys (dict_set k v d)).
Proof.
  intros Hnd. rewrite keys_dict_set. destruct (decide (k ∈ keys d)); [done|].
  apply NoDup_app. repeat split; [done| |apply NoDup_singleton].
  intros x Hx ->%list_elem_of_singleton. done.
Qed.

Lemma dict_set_keys_elem {V} k (v : V) d x :
  x ∈ keys (dict_set k v d) <-> x ∈ keys d \/ x = k.
Proof.
  rewrite keys_dict_set. destruct (decide (k ∈ keys d)) as [Hin|Hnot].
  - split; [by left|]. intros [?| ->]; done.
  - rewrite elem_of_app, list_elem_of_singleton. done.
Qed.

(** [d.update(other)] keeps the keys unique, has the keys of both, and
    leaves alone the items of [d] whose key is not in [other]. *)
Lemma dict_update_NoDup {V} (d other : list (string * V)) :
  NoDup (keys d) -> NoDup (keys (dict_update d other)).
Proof.
  unfold dict_update. revert d.
  induction other as [|[k v] other IH]; intros d Hnd; simpl; [done|].
  by apply IH, dict_set_NoDup.
Qed.

Lemma dict_update_keys_elem {V} (d other : list (string * V)) x :
  x ∈ keys (dict_update d other) <-> x ∈ keys d \/ x ∈ keys other.
Proof.
  unfold dict_update. revert d.
  induction other as [|[k v] other IH]; intros d; simpl.
  - split; [by left|]. intros [?|Hin]; [done|by apply elem_of_nil in Hin].
  - rewrite IH, dict_set_keys_elem, elem_of_cons. simpl. tauto.
Qed.

(** **** Rounding twice *)

Lemma round_half_even_of_Z x (n : Z) :
  x == inject_Z n -> round_half_even x = n.
Proof.
  intros Hx. unfold round_half_even.
  assert (Qfloor x = n) as -> by (rewrite Hx; apply Qfloor_Z).
  destruct (Qcompare_spec (x - inject_Z n) (1 # 2)) as [H|H|H];
    [exfalso; lra|done|exfalso; lra].
Qed.

Lemma round_idempotent v : round (round v 4) 4 = round v 4.
Proof.
  destruct v as [z|q| |]; [done| |done|done]. unfold round.
  change (inject_Z (10 ^ Z.of_nat 4)) with 10000.
  set (n := round_half_even (q * 10000)).
  rewrite (round_half_even_of_Z (Qred (inject_Z n / 10000) * 10000) n); [done|].
  rewrite Qred_correct. field.
Qed.

(** X16. Rounding to four places is idempotent, and so is [format_info]:
    a record that has been formatted is not changed by formatting it
    again, as when [append_info] formats fields that were rounded
    before. *)
Theorem X16_format_info_idempotent (info : info_dict) :
  NoDup (keys info) ->
  format_info (format_info info) = format_info info
  /\ keys (format_info info) = keys info.
Proof.
  intros Hnd. rewrite (format_info_map info Hnd).
  rewrite (keys_map_value (fun v => round v 4)). split; [|done].
  rewrite format_info_map
    by (by rewrite (keys_map_value (fun v => round v 4))).
  rewrite map_map. apply map_ext. intros [k v]. simpl.
  by rewrite round_idempotent.
Qed.

Lemma X16_format_info_idempotent_witness :
  format_info (format_info [("f1_score", PyFloat 0.123456789)])
  = format_info [("f1_score", PyFloat 0.123456789)].
Proof.
  apply X16_format_info_idempotent. apply (bool_decide_unpack _). by vm_compute.
Defined.

(** X17. [append_info] is additive: it raises when there is no info file;
    otherwise the new record has the fields of the old one and those of
    [dict] and no other, keeps unique keys, and every field of the old
    record that [dict] does not name is still there with its value. *)
Theorem X17_append_info_additive (dict old : info_dict) :
  NoDup (keys dict) -> NoDup (keys old) ->
  append_info dict None = None
  /\ exists new,
       append_info dict (Some old) = Some new
       /\ NoDup (keys new)
       /\ (forall k, k ∈ keys new <-> k ∈ keys old \/ k ∈ keys dict)
       /\ (forall k v, (k, v) ∈ old -> k ∉ keys dict -> (k, v) ∈ new).
Proof.
  intros Hdict Hold. split; [done|]. eexists. split; [reflexivity|].
  assert (Hkeys : keys (format_info dict) = keys dict).
  { rewrite format_info_map by done.
    apply (keys_map_value (fun v => round v 4)). }
  split; [by apply dict_update_NoDup|]. split.
  - intros k. by rewrite dict_update_keys_elem, Hkeys.
  - intros k v Hin Hnot. apply (dict_update_elem_old (k, v)); [|done].
    by rewrite Hkeys.
Qed.

Lemma X17_append_info_additive_witness :
  exists new,
    append_info [("best_tr", PyFloat 0.33)] (Some [("step", PyInt 7)])
    = Some new
    /\ ("step", PyInt 7) ∈ new.
Proof.
  destruct (X17_append_info_additive [("best_tr", PyFloat 0.33)]
              [("step", PyInt 7)]) as (_ & new & Hnew & _ & _ & Hold).
  - apply (bool_decide_unpack _). by vm_compute.
  - apply (bool_decide_unpack _). by vm_compute.
  - exists new. split; [exact Hnew|]. apply Hold; [by left|].
    simpl. intros Hin. apply list_elem_of_singleton in Hin. discriminate Hin.
Defined.

(** **** record *)

Lemma record_path_None mode :
  record_path mode = None <-> mode <> "test" /\ mode <> "run".
Proof.
  unfold record_path.
  destruct (String.eqb_spec mode "test") as [->|H1]; [split; [done|]; tauto|].
  destruct (String.eqb_spec mode "run") as [->|H2]; [split; [done|]; tauto|].
  done.
Qed.

(** X18. [record] makes [./notes] and the dated directory before it
    reads anything, and leaves behind what it did when it raises.  When
    the dated directory exists already it raises FileExistsError, having
    made [./notes] only.  Without an info file it raises after it has
    made the dated directory.  For a mode other than 'test' and 'run' it
    raises AttributeError only after it has written [info.csv] there.
    With both directories in order, an info file, a model file and one of
    the two modes it returns; and whenever it returns, both tables got
    the same dictionary, whose columns are unique and are [hash],
    [subdir], the arguments and the fields of the info file, a field of
    the info file taking the place of an argument of the same name. *)
Theorem X18_record_table mode (args : list (string * cell)) date_time hash
    (fs : file_system) info_file :
  NoDup (keys args) ->
  fs !! record_dir <> Some RegularFile ->
  let subdir := subdir_of mode date_time in
  let run := record mode args date_time hash fs info_file in
  (is_Some (fs !! subdir) ->
   run = ([MakeDirs record_dir], Some FileExistsError))
  /\ (fs !! subdir = None -> fs !! models_dir = Some Directory ->
      info_file = None ->
      run = ([MakeDirs record_dir; Mkdir subdir], Some FileNotFoundError))
  /\ (forall info,
        fs !! subdir = None -> fs !! models_dir = Some Directory ->
        info_file = Some info -> mode <> "test" -> mode <> "run" ->
        run = ([ MakeDirs record_dir; Mkdir subdir;
                 DictToCsv (param_dict_of mode args date_time hash info)
                           (subdir +:+ "/" +:+ "info.csv") "w" "index" false ],
               Some AttributeError))
  /\ (forall info path,
        fs !! subdir = None -> fs !! models_dir = Some Directory ->
        info_file = Some info -> record_path mode = Some path ->
        fs !! best_model_path = Some RegularFile ->
        run = ([ MakeDirs record_dir; Mkdir subdir;
                 DictToCsv (param_dict_of mode args date_time hash info)
                           (subdir +:+ "/" +:+ "info.csv") "w" "index" false;
                 DictToCsv (param_dict_of mode args date_time hash info)
                           path "a" "columns" true;
                 Copy best_model_path subdir ], None))
  /\ (forall calls,
        run = (calls, None) ->
        exists info path,
          fs !! subdir = None /\ fs !! models_dir = Some Directory
          /\ info_file = Some info /\ record_path mode = Some path
          /\ fs !! best_model_path = Some RegularFile)
  /\ (forall info,
        let d := param_dict_of mode args date_time hash info in
        NoDup (keys d)
        /\ (forall k, k ∈ keys d
                      <-> k = "hash" \/ k = "subdir" \/ k ∈ keys args
                          \/ k ∈ keys info)
        /\ (forall k v, NoDup (keys info) -> (k, v) ∈ info ->
                        (k, Number v) ∈ d)
        /\ (forall k v, (k, v) ∈ args -> k ∉ keys info -> (k, v) ∈ d)
        /\ ("hash" ∉ keys args -> "hash" ∉ keys info ->
            ("hash", Text hash) ∈ d)).
Proof.
  intros Hargs Hnotes subdir run.
  assert (Hrun := record_unfold mode args date_time hash fs info_file Hnotes).
  fold subdir run in Hrun. cbn zeta in Hrun.
  clearbody run. subst run.
  split; [by intros [x ->]|].
  split; [by intros -> -> ->|].
  split.
  { intros info -> -> -> H1 H2.
    assert (record_path mode = None) as -> by (by apply record_path_None).
    reflexivity. }
  split; [by intros info path -> -> -> -> ->|].
  split.
  { intros calls.
    destruct (fs !! subdir); [done|].
    destruct (fs !! models_dir) as [[]|]; [|done|done].
    destruct info_file as [info|]; [|done].
    destruct (record_path mode) as [path|]; [|done].
    destruct (fs !! best_model_path) as [[]|]; [done| |done].
    intros _. by exists info, path. }
  intros info d.
  assert (Hk : keys (map (fun kv => (kv.1, Number kv.2)) info) = keys info)
    by apply (keys_map_value Number).
  unfold d, param_dict_of. split; [|split; [|split; [|split]]].
  - apply dict_update_NoDup, dict_update_NoDup.
    apply (bool_decide_unpack _). by vm_compute.
  - intros k. rewrite !dict_update_keys_elem, Hk. simpl.
    rewrite !elem_of_cons, elem_of_nil. tauto.
  - intros k v Hnd Hin. apply dict_update_elem; [by rewrite Hk|].
    apply (list_elem_of_fmap_2 (fun kv => (kv.1, Number kv.2)) _ (k, v) Hin).
  - intros k v Hin Hnot. apply (dict_update_elem_old (k, v)); [by rewrite Hk|].
    apply dict_update_elem; [by apply dict_update_NoDup, NoDup_nil|].
    by apply dict_update_elem.
  - intros H1 H2. apply (dict_update_elem_old ("hash", Text hash));
      [by rewrite Hk|].
    apply (dict_update_elem_old ("hash", Text hash)); [|by left].
    simpl. rewrite dict_update_keys_elem. intros [Hin|Hin]; [|done].
    by apply elem_of_nil in Hin.
Qed.

(** A second call of [record] within the same second finds the dated
    directory of the first one; and a run in mode 'train' leaves the
    directory and its [info.csv] behind. *)
Lemma X18_record_table_witness :
  record "test" [("lr", Text "0.001")] "Jan_10" "abc"
    {[ "./models" := Directory; "./models/Jan_10_test" := Directory ]}
    (Some [("step", PyInt 7)])
  = ([MakeDirs "./notes"], Some FileExistsError)
  /\ exists d,
       record "train" [("lr", Text "0.001")] "Jan_10" "abc"
         {[ "./models" := Directory ]} (Some [("step", PyInt 7)])
       = ([ MakeDirs "./notes"; Mkdir "./models/Jan_10";
            DictToCsv d "./models/Jan_10/info.csv" "w" "index" false ],
          Some AttributeError)
       /\ ("step", Number (PyInt 7)) ∈ d.
Proof.
  split.
  - apply (X18_record_table "test" [("lr", Text "0.001")] "Jan_10" "abc"
             {[ "./models" := Directory; "./models/Jan_10_test" := Directory ]}
             (Some [("step", PyInt 7)]));
      [apply (bool_decide_unpack _); by vm_compute|by vm_compute|].
    vm_compute. eauto.
  - eexists. split.
    + apply (X18_record_table "train" [("lr", Text "0.001")] "Jan_10" "abc"
               {[ "./models" := Directory ]} (Some [("step", PyInt 7)]));
        [apply (bool_decide_unpack _); by vm_compute|by vm_compute
        |by vm_compute|by vm_compute|reflexivity|discriminate|discriminate].
    + vm_compute. set_solver.
Defined.

(** **** The threshold search inside predict_labels *)

Lemma f1_score_le_1 y_true y_pred : f1_score y_true y_pred <= 1.
Proof.
  unfold f1_score.
  set (pairs := zip y_true y_pred).
  pose proof (count_if_nonneg (fun tp => (tp.1 =? 1)%Z && tp.2) pairs) as Htp.
  pose proof (count_if_nonneg (fun tp => negb (tp.1 =? 1)%Z && tp.2) pairs) as Hfp.
  pose proof (count_if_nonneg (fun tp => (tp.1 =? 1)%Z && negb tp.2) pairs) as Hfn.
  destruct (Z.eqb_spec (2 * count_if (fun tp => (tp.1 =? 1)%Z && tp.2) pairs
                        + count_if (fun tp => negb (tp.1 =? 1)%Z && tp.2) pairs
                        + count_if (fun tp => (tp.1 =? 1)%Z && negb tp.2) pairs) 0);
    [done|].
  apply Qle_shift_div_r.
  - change 0 with (inject_Z 0). rewrite <- Zlt_Qlt. lia.
  - rewrite Qmult_1_l. rewrite <- Zle_Qle. lia.
Qed.

Lemma f1_score_no_positive y_true y_pred :
  Forall (fun y => y <> 1%Z) y_true -> f1_score y_true y_pred == 0.
Proof.
  intros Hneg. unfold f1_score.
  assert (count_if (fun tp : Z * bool => (tp.1 =? 1)%Z && tp.2)
            (zip y_true y_pred) = 0%Z) as ->.
  { unfold count_if. revert y_pred.
    induction Hneg as [|y y_true Hy _ IH]; intros [|b y_pred]; simpl;
      try done.
    destruct (Z.eqb_spec y 1) as [->|_]; [done|]. simpl. apply IH. }
  match goal with |- (if ?b then _ else _) == _ => destruct b end;
    [reflexivity|].
  change (inject_Z (2 * 0)) with 0. apply Qmult_0_l.
Qed.

(** X19. Whatever the range, the F1 that the threshold search returns is
    between 0 and 1.  It is 0 only with the threshold left at [min_tr];
    otherwise the threshold is one of the candidates and the F1 is the
    one of that candidate.  On a validation split without a positive
    label no candidate scores, and the search returns [min_tr] and 0
    whatever the predictions are. *)
Theorem X19_choose_tr_bounds val_pred val_true (min_tr max_tr tr_step : float)
    (t : float) (f : Q) :
  _choose_tr val_pred val_true min_tr max_tr tr_step = Some (t, f) ->
  0 <= f /\ f <= 1
  /\ (f == 0 -> t = min_tr)
  /\ (0 < f ->
      exists cands (i : nat),
        arange min_tr max_tr tr_step = Some cands
        /\ cands !! i = Some t /\ t = arange_item min_tr tr_step i
        /\ f = cand_f1 val_pred val_true t)
  /\ (Forall (fun y => y <> 1%Z) val_true -> t = min_tr /\ f = 0).
Proof.
  unfold _choose_tr.
  destruct (arange min_tr max_tr tr_step) as [cands|] eqn:Har; [|done].
  simpl. intros [= <- <-].
  pose proof (choose_tr_fold val_pred val_true cands
                (ChooseState min_tr 0%float 0 0)) as Hfold.
  simpl in Hfold. destruct Hfold as (HA & _ & HC).
  split; [done|].
  destruct HC as [[-> ->]|(i & Hi & Hbest & Hgt & _)].
  - split; [done|]. split; [done|]. split; [|done].
    intros Hpos. exfalso. lra.
  - split; [rewrite Hbest; apply f1_score_le_1|].
    split; [intros Hz; exfalso; lra|]. split.
    + intros _. exists cands, i. split; [done|]. split; [done|].
      split; [|done]. by apply (arange_lookup _ max_tr _ cands).
    + intros Hneg. exfalso. rewrite Hbest in Hgt.
      pose proof (f1_score_no_positive val_true
                    (greater_than val_pred
                       (tr (foldl (choose_tr_body val_pred val_true)
                              (ChooseState min_tr 0%float 0 0) cands)))
                    Hneg) as Hzero.
      unfold cand_f1 in Hgt. lra.
Qed.

(** The scan from 0.1 to 0.4: the threshold returned is the candidate of
    index 3. *)
Lemma X19_choose_tr_bounds_witness :
  exists f,
    _choose_tr [3 # 8; 1 # 2] [0; 1]%Z 0.1 0.4 0.1 = Some (0.4%float, f)
    /\ 0 < f /\ f <= 1
    /\ 0.4%float = arange_item 0.1 0.1 3.
Proof.
  eexists. split; [vm_compute; reflexivity|].
  destruct (X19_choose_tr_bounds [3 # 8; 1 # 2] [0; 1]%Z 0.1 0.4 0.1 0.4 _
              ltac:(vm_compute; reflexivity)) as (_ & Hle & _).
  split; [reflexivity|]. split; [exact Hle|]. vm_compute. reflexivity.
Defined.

(** X20. With a list as threshold [predict_labels] raises when the list
    has not three numbers, when [np.arange] raises on them, as it does
    for a zero step, and when there is no info file.  Otherwise it
    returns: it labels with the threshold that [_choose_tr] chose, as it
    is, and writes a new info file that has [best_tr] and [best_f1]
    rounded and every other field of the old file. *)
Theorem X20_predict_labels_search y_pred y_true ids val_pred val_true
    (l : list float) (info_file : option info_dict) :
  let run :=
    predict_labels y_pred y_true ids val_pred val_true (Search l) info_file in
  (length l <> 3%nat -> run = None)
  /\ (forall min_tr max_tr tr_step,
        l = [min_tr; max_tr; tr_step] ->
        (is_zero tr_step = true -> arange min_tr max_tr tr_step = None)
        /\ (arange min_tr max_tr tr_step = None \/ info_file = None ->
            run = None)
        /\ forall cands old,
             arange min_tr max_tr tr_step = Some cands ->
             info_file = Some old ->
             exists t f new,
               _choose_tr val_pred val_true min_tr max_tr tr_step
               = Some (t, f)
               /\ run = Some ((y_label_at y_pred t, y_true, ids), Some new)
               /\ ("best_tr", round (value t) 4) ∈ new
               /\ ("best_f1", round (PyFloat f) 4) ∈ new
               /\ forall k v,
                    (k, v) ∈ old -> k <> "best_tr" -> k <> "best_f1" ->
                    (k, v) ∈ new).
Proof.
  intros run. subst run. split.
  { destruct l as [|a [|b [|c [|d l]]]]; simpl; try done. }
  intros min_tr max_tr tr_step ->. split; [|split].
  { intros Hz. unfold arange. by rewrite Hz. }
  { intros [Har| ->]; cbn [predict_labels]; unfold _choose_tr.
    - by rewrite Har.
    - destruct (arange min_tr max_tr tr_step); reflexivity. }
  intros cands old Har ->. cbn [predict_labels]. unfold _choose_tr.
  rewrite Har. cbn [mbind option_bind].
  set (st := foldl (choose_tr_body val_pred val_true)
                   (ChooseState min_tr 0%float 0 0) cands).
  exists (tr st), (tmp2 st).
  set (fields := [("best_tr", value (tr st)); ("best_f1", PyFloat (tmp2 st))]).
  assert (Hnd : NoDup (keys fields))
    by (apply (bool_decide_unpack _); by vm_compute).
  assert (Hfmt : format_info fields
                 = map (fun kv => (kv.1, round kv.2 4)) fields)
    by (by apply format_info_map).
  assert (Hkeys : keys (format_info fields) = ["best_tr"; "best_f1"])
    by (by rewrite Hfmt).
  eexists. split; [reflexivity|]. unfold append_info.
  cbn [mbind option_bind]. split; [reflexivity|].
  split; [|split].
  - apply dict_update_elem; [by rewrite Hkeys|]. rewrite Hfmt. by left.
  - apply dict_update_elem; [by rewrite Hkeys|]. rewrite Hfmt.
    right. by left.
  - intros k v Hin H1 H2. apply (dict_update_elem_old (k, v)); [|done].
    rewrite Hkeys. simpl. rewrite !elem_of_cons, elem_of_nil. tauto.
Qed.

Lemma X15_predict_labels_fixed_witness :
  exists labels1 labels2,
    predict_labels_of
      [[]; []; [Batch [0.2; 0.5] [] [11; 12]%Z; Batch [0.7] [] [13]%Z]]
      true (Fixed 0.5) None
    = Some ((labels1, [], [11; 12; 13]%Z), None)
    /\ labels1 = [0; 1; 1]%Z
    /\ predict_labels_of
         [[]; []; [Batch [0.2; 0.5] [] [11; 12]%Z; Batch [0.7] [] [13]%Z]]
         true (Fixed 0.6) None
       = Some ((labels2, [], [11; 12; 13]%Z), None)
    /\ Forall2 Z.le labels2 labels1.
Proof.
  destruct (X15_predict_labels_fixed
              [[]; []; [Batch [0.2; 0.5] [] [11; 12]%Z; Batch [0.7] [] [13]%Z]]
              true 0.5 0.6 None [0.2; 0.5; 0.7] [] [11; 12; 13]%Z
              ltac:(discriminate) ltac:(reflexivity))
    as (l1 & l2 & H1 & H2 & _ & _ & Hle).
  exists l1, l2. split; [exact H1|]. split; [|split; [exact H2|exact Hle]].
  vm_compute in H1. by injection H1 as <-.
Defined.

End LearnerExtra.

Module PreprocessExtra.
Import Preprocess PreprocessSpec.

#[local] Existing Instance by_word_dec.
#[local] Existing Instance by_freq_desc_dec.

(** The tokens of the examples of both columns, in the order in which
    [build_vocab] counts them. *)
Definition all_tokens (train test : column) : list string :=
  (concat train ++ concat test)%list.

(** The counter that [build_vocab] fills for two columns. *)
Definition joint_counter (train test : column) : gmap string nat :=
  foldl counter_update (foldl counter_update ∅ train) test.

Lemma counter_update_count c x tok :
  default 0%nat (counter_update c x !! tok)
  = (default 0%nat (c !! tok) + count_occ String.string_dec x tok)%nat.
Proof.
  unfold counter_update. revert c.
  induction x as [|t x IH]; intros c; simpl; [lia|].
  rewrite IH. destruct (String.string_dec t tok) as [->|Hne].
  - rewrite lookup_insert_eq. simpl. lia.
  - by rewrite lookup_insert_ne.
Qed.

Lemma column_count c (data : column) tok :
  default 0%nat (foldl counter_update c data !! tok)
  = (default 0%nat (c !! tok) + count_occ String.string_dec (concat data) tok)%nat.
Proof.
  revert c. induction data as [|x data IH]; intros c; simpl; [lia|].
  rewrite IH, counter_update_count, count_occ_app. lia.
Qed.

Lemma joint_counter_count train test tok :
  default 0%nat (joint_counter train test !! tok)
  = count_occ String.string_dec (all_tokens train test) tok.
Proof.
  unfold joint_counter, all_tokens.
  rewrite !column_count, count_occ_app, lookup_empty. simpl. lia.
Qed.

Lemma joint_counter_positive train test :
  map_Forall (fun _ n => (1 <= n)%nat) (joint_counter train test).
Proof.
  unfold joint_counter. apply column_positive, column_positive.
  apply map_Forall_empty.
Qed.

(** X21. The frequencies that the vocabulary keeps are the numbers of
    occurrences over the train and the test dataset together: a token has
    an entry exactly when it occurs, and the entry is the number of its
    occurrences in all examples of both. *)
Theorem X21_freqs_count_occurrences
    (tokenizer : string -> list string) dataset
    (train_csv test_csv : list string) (tok : string) :
  let v := preprocess tokenizer dataset train_csv test_csv in
  let occurrences :=
    count_occ String.string_dec
      (all_tokens (dataset tokenizer train_csv) (dataset tokenizer test_csv))
      tok in
  (freqs v !! tok = None <-> occurrences = 0%nat)
  /\ (forall n, freqs v !! tok = Some n -> n = occurrences /\ (1 <= n)%nat).
Proof.
  intros v occurrences.
  pose proof (joint_counter_count (dataset tokenizer train_csv)
                (dataset tokenizer test_csv) tok) as Hc.
  pose proof (joint_counter_positive (dataset tokenizer train_csv)
                (dataset tokenizer test_csv)) as Hpos.
  fold occurrences in Hc.
  change (freqs v)
    with (joint_counter (dataset tokenizer train_csv)
            (dataset tokenizer test_csv)).
  destruct (joint_counter (dataset tokenizer train_csv)
              (dataset tokenizer test_csv) !! tok) as [n|] eqn:Hl;
    simpl in Hc.
  - pose proof (Hpos tok n Hl) as Hn. simpl in Hn. split.
    + split; [done|]. intros H0. exfalso. lia.
    + intros m [= <-]. split; [done|lia].
  - split; [done|]. by intros n [=].
Qed.

Lemma take_frequent_prefix min_freq l :
  exists rest, map fst l = (take_frequent min_freq l ++ rest)%list.
Proof.
  induction l as [|[w f] l [rest IH]]; simpl; [by exists []|].
  destruct (f <? min_freq)%nat.
  - by eexists.
  - exists rest. by rewrite IH.
Qed.

Lemma enumerate_index_Some itos tok i :
  enumerate_index itos !! tok = Some i -> itos !! i = Some tok.
Proof.
  unfold enumerate_index. revert i.
  induction itos as [|x l IH] using rev_ind; intros i; [done|].
  rewrite zip_seq_snoc, foldl_app. simpl.
  destruct (decide (x = tok)) as [->|Hne].
  - rewrite lookup_insert_eq. intros [= <-].
    by rewrite lookup_app_r, Nat.sub_diag.
  - rewrite lookup_insert_ne by done. intros H.
    apply lookup_app_l_Some. by apply IH.
Qed.

Section Vocabulary.

Variables (counter : gmap string nat) (min_freq : nat).

(** The counter without the special tokens, and its items as [Vocab]
    sorts them. *)
Definition counted_words : gmap string nat :=
  delete "<pad>" (delete "<unk>" counter).

Definition words_and_frequencies : list (string * nat) :=
  sorted by_freq_desc (sorted by_word (map_to_list counted_words)).

Lemma itos_Vocab_init :
  itos (Vocab_init counter min_freq)
  = (specials ++ take_frequent (Nat.max min_freq 1) words_and_frequencies)%list.
Proof. reflexivity. Qed.

Lemma words_and_frequencies_perm :
  words_and_frequencies ≡ₚ map_to_list counted_words.
Proof. unfold words_and_frequencies. by rewrite !sorted_Permutation. Qed.

Lemma words_and_frequencies_elem w f :
  (w, f) ∈ words_and_frequencies
  <-> counter !! w = Some f /\ w ∉ specials.
Proof.
  rewrite words_and_frequencies_perm, elem_of_map_to_list.
  unfold counted_words, specials.
  rewrite !lookup_delete_Some, !not_elem_of_cons. split.
  - intros (H1 & H2 & H3). repeat split; try done. apply not_elem_of_nil.
  - intros (H1 & H2 & H3 & _). done.
Qed.

Lemma words_NoDup : NoDup (map fst words_and_frequencies).
Proof.
  rewrite words_and_frequencies_perm. apply NoDup_fst_map_to_list.
Qed.

Lemma itos_NoDup : NoDup (itos (Vocab_init counter min_freq)).
Proof.
  rewrite itos_Vocab_init.
  destruct (take_frequent_prefix (Nat.max min_freq 1) words_and_frequencies)
    as [rest Hrest].
  pose proof words_NoDup as Hnd. rewrite Hrest in Hnd.
  apply NoDup_app in Hnd as (Hnd & _ & _).
  apply NoDup_app. repeat split; [|intros w Hsp Hin|done].
  - apply (bool_decide_unpack _). by vm_compute.
  - assert (w ∈ map fst words_and_frequencies) as Hw
      by (rewrite Hrest; apply elem_of_app; by left).
    apply list_elem_of_fmap in Hw as ([w' f] & -> & Hwf).
    apply words_and_frequencies_elem in Hwf as [_ Hns]. done.
Qed.

End Vocabulary.

(** X22. The vocabulary is a bijection between its words and their
    indices: no word occurs twice in [itos], [stoi] maps a word to an
    index exactly when [itos] has that word at that index, and the
    unknown and the padding token have the indices 0 and 1. *)
Theorem X22_vocabulary_bijection
    (tokenizer : string -> list string) dataset
    (train_csv test_csv : list string) :
  let v := preprocess tokenizer dataset train_csv test_csv in
  NoDup (itos v)
  /\ (forall tok i, stoi v !! tok = Some i <-> itos v !! i = Some tok)
  /\ stoi v !! "<unk>" = Some 0%nat /\ stoi v !! "<pad>" = Some 1%nat.
Proof.
  intros v.
  assert (Hnd : NoDup (itos v)) by apply itos_NoDup.
  assert (Hbij : forall tok i, stoi v !! tok = Some i <-> itos v !! i = Some tok).
  { intros tok i. split; [apply enumerate_index_Some|]. intros Hi.
    destruct (enumerate_index_lookup (itos v) tok) as (i' & Hs & Hi').
    - by eapply list_elem_of_lookup_2.
    - rewrite (NoDup_lookup _ _ _ _ Hnd Hi Hi'). exact Hs. }
  split; [done|]. split; [done|]. split; by apply Hbij.
Qed.

Lemma counter_update_observed c x tok :
  is_Some (counter_update c x !! tok) -> tok ∈ x \/ is_Some (c !! tok).
Proof.
  unfold counter_update. revert c.
  induction x as [|t x IH]; intros c; simpl; [by right|].
  intros H. apply IH in H as [H|H]; [left; by right|].
  destruct (decide (t = tok)) as [->|Hne]; [left; by left|].
  rewrite lookup_insert_ne in H by done. by right.
Qed.

Lemma column_observed c (data : column) tok :
  is_Some (foldl counter_update c data !! tok) ->
  (exists example, example ∈ data /\ tok ∈ example) \/ is_Some (c !! tok).
Proof.
  revert c. induction data as [|x data IH]; intros c; simpl; [by right|].
  intros H. apply IH in H as [(ex & Hex & Htok)|H].
  - left. exists ex. split; [by right|done].
  - apply counter_update_observed in H as [H|H]; [|by right].
    left. exists x. split; [by left|done].
Qed.

(** X23. The vocabulary invents no word: every word of [itos] is one of
    the two special tokens or a token of some example of the train or of
    the test dataset. *)
Theorem X23_vocabulary_only_observed
    (tokenizer : string -> list string) dataset
    (train_csv test_csv : list string) (tok : string) :
  tok ∈ itos (preprocess tokenizer dataset train_csv test_csv) ->
  tok ∈ specials
  \/ exists example,
       (example ∈ dataset tokenizer train_csv
        \/ example ∈ dataset tokenizer test_csv)
       /\ tok ∈ example.
Proof.
  unfold preprocess, build_vocab. cbn [foldl].
  set (counter := foldl counter_update
                    (foldl counter_update ∅ (dataset tokenizer train_csv))
                    (dataset tokenizer test_csv)).
  rewrite itos_Vocab_init. intros [Hsp|Hin]%elem_of_app; [by left|]. right.
  destruct (take_frequent_prefix (Nat.max 1 1) (words_and_frequencies counter))
    as [rest Hrest].
  assert (tok ∈ map fst (words_and_frequencies counter)) as Hw
    by (rewrite Hrest; apply elem_of_app; by left).
  apply list_elem_of_fmap in Hw as ([w f] & -> & Hwf).
  apply words_and_frequencies_elem in Hwf as [Hc _]. simpl.
  assert (is_Some (counter !! w)) as Hsome by eauto.
  apply column_observed in Hsome as [(ex & Hex & Htok)|Hsome]; [by eauto|].
  apply column_observed in Hsome as [(ex & Hex & Htok)|Hsome]; [by eauto|].
  rewrite lookup_empty in Hsome. by destruct Hsome.
Qed.

Lemma X23_vocabulary_only_observed_witness :
  "foo" ∈ specials
  \/ exists example,
       (example ∈ TabularDataset Tokenizers.WhitespaceTokenizer ["foo bar"]
        \/ example ∈ TabularDataset Tokenizers.WhitespaceTokenizer ["baz"])
       /\ "foo" ∈ example.
Proof.
  apply (X23_vocabulary_only_observed Tokenizers.WhitespaceTokenizer
           TabularDataset ["foo bar"] ["baz"] "foo").
  vm_compute. repeat constructor.
Defined.

#[local] Instance by_freq_desc_total : Total by_freq_desc.
Proof. intros [w1 f1] [w2 f2]. unfold by_freq_desc. simpl. lia. Qed.

#[local] Instance by_freq_desc_trans : Transitive by_freq_desc.
Proof. intros [w1 f1] [w2 f2] [w3 f3]. unfold by_freq_desc. simpl. lia. Qed.

Lemma StronglySorted_lookup_lt {A} (R : relation A) (l : list A) i j x y :
  StronglySorted R l -> (i < j)%nat ->
  l !! i = Some x -> l !! j = Some y -> R x y.
Proof.
  intros Hs. revert i j. induction Hs as [|a l Hs IH Hall]; intros i j Hij;
    [done|].
  destruct j as [|j]; [lia|]. destruct i as [|i]; simpl.
  - intros [= <-] Hy. rewrite Forall_forall in Hall. apply Hall.
    by eapply list_elem_of_lookup_2.
  - apply IH. lia.
Qed.

(** X24. After the two special tokens the vocabulary is in order of
    decreasing frequency: of two words of [itos] at indices from 2 on, the
    one with the smaller index occurs at least as often in the train and
    the test dataset together. *)
Theorem X24_vocabulary_by_frequency
    (tokenizer : string -> list string) dataset
    (train_csv test_csv : list string) (i j : nat) (wi wj : string) :
  let v := preprocess tokenizer dataset train_csv test_csv in
  (2 <= i < j)%nat ->
  itos v !! i = Some wi -> itos v !! j = Some wj ->
  exists fi fj,
    freqs v !! wi = Some fi /\ freqs v !! wj = Some fj /\ (fj <= fi)%nat.
Proof.
  intros v Hij. subst v. unfold preprocess, build_vocab. cbn [foldl].
  set (counter := foldl counter_update
                    (foldl counter_update ∅ (dataset tokenizer train_csv))
                    (dataset tokenizer test_csv)).
  assert (Hpos : map_Forall (fun _ n => (1 <= n)%nat) counter)
    by apply joint_counter_positive.
  rewrite itos_Vocab_init. change (freqs (Vocab_init counter 1)) with counter.
  set (waf := words_and_frequencies counter).
  assert (Hall : take_frequent (Nat.max 1 1) waf = map fst waf).
  { apply take_frequent_all, Forall_forall. intros [w f] Hin.
    apply words_and_frequencies_elem in Hin as [Hc _]. simpl.
    by apply (Hpos w). }
  rewrite Hall.
  assert (Hsorted : StronglySorted by_freq_desc waf).
  { apply sorted_StronglySorted; apply _. }
  rewrite !lookup_app_r by (simpl; lia). simpl.
  rewrite !list_lookup_fmap.
  destruct (waf !! (i - 2)%nat) as [[wi' fi]|] eqn:Hi; [|done].
  destruct (waf !! (j - 2)%nat) as [[wj' fj]|] eqn:Hj; [|done].
  simpl. intros [= <-] [= <-].
  pose proof (StronglySorted_lookup_lt _ _ (i - 2) (j - 2) _ _ Hsorted
                ltac:(lia) Hi Hj) as Hle.
  apply list_elem_of_lookup_2, words_and_frequencies_elem in Hi as [Hci _].
  apply list_elem_of_lookup_2, words_and_frequencies_elem in Hj as [Hcj _].
  exists fi, fj. done.
Qed.

Lemma X24_vocabulary_by_frequency_witness :
  exists fi fj,
    freqs (preprocess Tokenizers.WhitespaceTokenizer TabularDataset
             ["a b b"] ["b c c"]) !! "b" = Some fi
    /\ freqs (preprocess Tokenizers.WhitespaceTokenizer TabularDataset
                ["a b b"] ["b c c"]) !! "a" = Some fj
    /\ (fj <= fi)%nat.
Proof.
  apply (X24_vocabulary_by_frequency Tokenizers.WhitespaceTokenizer
           TabularDataset ["a b b"] ["b c c"] 2 4 "b" "a");
    [lia|by vm_compute|by vm_compute].
Defined.

(** ***** The order among words of equal frequency *)

Lemma ascii_compare_refl a : Ascii.compare a a = Eq.
Proof. unfold Ascii.compare. apply N.compare_refl. Qed.

Lemma ascii_compare_lt_trans a b c :
  Ascii.compare a b = Lt -> Ascii.compare b c = Lt -> Ascii.compare a c = Lt.
Proof.
  unfold Ascii.compare. rewrite !N.compare_lt_iff. apply N.lt_trans.
Qed.

Lemma string_leb_trans s1 s2 s3 :
  String.leb s1 s2 = true -> String.leb s2 s3 = true ->
  String.leb s1 s3 = true.
Proof.
  unfold String.leb. revert s2 s3.
  induction s1 as [|a s1 IH]; intros [|b s2] [|c s3]; simpl; try done.
  destruct (Ascii.compare a b) eqn:Hab; [| |done].
  - apply Ascii.compare_eq_iff in Hab as ->.
    destruct (Ascii.compare b c) eqn:Hbc; [apply IH|done|done].
  - destruct (Ascii.compare b c) eqn:Hbc; [| |done].
    + apply Ascii.compare_eq_iff in Hbc as <-. by rewrite Hab.
    + by rewrite (ascii_compare_lt_trans a b c Hab Hbc).
Qed.

#[local] Instance by_word_total : Total by_word.
Proof.
  intros [w1 f1] [w2 f2]. unfold by_word. simpl.
  destruct (String.leb_total w1 w2) as [->| ->]; [by left|by right].
Qed.

#[local] Instance by_word_trans : Transitive by_word.
Proof.
  intros [w1 f1] [w2 f2] [w3 f3]. unfold by_word. simpl.
  intros H1%Is_true_true H2%Is_true_true. apply Is_true_true.
  by apply (string_leb_trans w1 w2 w3).
Qed.

(** A stable sort of a list that is in order for [R1] leaves in that
    order the items that are equal for the relation [R2] it sorts by. *)
Definition then_by {A} (R2 R1 : relation A) : relation A :=
  fun a b => R2 a b /\ (R2 b a -> R1 a b).

Lemma insert_sorted_stable {A} (R1 R2 : relation A) `{!RelDecision R2}
    `{!Total R2} `{!Transitive R2} x l :
  Forall (R1 x) l -> StronglySorted (then_by R2 R1) l ->
  StronglySorted (then_by R2 R1) (insert_sorted R2 x l).
Proof.
  intros Hx Hs. induction Hs as [|y l Hs IH Hall]; simpl;
    [by repeat constructor|].
  apply Forall_cons in Hx as [Hxy Hx].
  destruct (decide (R2 x y)) as [H2|H2].
  - constructor; [by constructor|]. constructor; [by split|].
    rewrite Forall_forall in Hall, Hx. apply Forall_forall. intros z Hz.
    split; [|intros _; by apply Hx]. trans y; [done|]. by apply Hall.
  - constructor; [by apply IH|]. rewrite insert_sorted_Permutation.
    constructor; [|done]. split; [|done]. by destruct (total R2 x y).
Qed.

Lemma sorted_stable {A} (R1 R2 : relation A) `{!RelDecision R2}
    `{!Total R2} `{!Transitive R2} l :
  StronglySorted R1 l -> StronglySorted (then_by R2 R1) (sorted R2 l).
Proof.
  induction 1 as [|x l Hs IH Hall]; simpl; [constructor|].
  apply insert_sorted_stable; [apply _|apply _| |done].
  by rewrite sorted_Permutation.
Qed.

(** X25. Words of the same frequency are in alphabetical order in the
    vocabulary: of two words of [itos] at indices from 2 on that occur
    equally often, the one with the smaller index is the one that is
    first in the order of strings. *)
Theorem X25_vocabulary_ties_alphabetical
    (tokenizer : string -> list string) dataset
    (train_csv test_csv : list string) (i j : nat) (wi wj : string)
    (f : nat) :
  let v := preprocess tokenizer dataset train_csv test_csv in
  (2 <= i < j)%nat ->
  itos v !! i = Some wi -> itos v !! j = Some wj ->
  freqs v !! wi = Some f -> freqs v !! wj = Some f ->
  String.leb wi wj = true /\ wi <> wj.
Proof.
  intros v Hij Hi Hj Hfi Hfj.
  assert (Hne : wi <> wj).
  { intros ->. pose proof (itos_NoDup
                 (foldl counter_update
                    (foldl counter_update ∅ (dataset tokenizer train_csv))
                    (dataset tokenizer test_csv)) 1) as Hnd.
    pose proof (NoDup_lookup _ _ _ _ Hnd Hi Hj). lia. }
  split; [|done]. revert Hi Hj Hfi Hfj. subst v.
  unfold preprocess, build_vocab. cbn [foldl].
  set (counter := foldl counter_update
                    (foldl counter_update ∅ (dataset tokenizer train_csv))
                    (dataset tokenizer test_csv)).
  assert (Hpos : map_Forall (fun _ n => (1 <= n)%nat) counter)
    by apply joint_counter_positive.
  rewrite itos_Vocab_init. change (freqs (Vocab_init counter 1)) with counter.
  set (waf := words_and_frequencies counter).
  assert (Hall : take_frequent (Nat.max 1 1) waf = map fst waf).
  { apply take_frequent_all, Forall_forall. intros [w n] Hin.
    apply words_and_frequencies_elem in Hin as [Hc _]. simpl.
    by apply (Hpos w). }
  rewrite Hall.
  assert (Hsorted : StronglySorted (then_by by_freq_desc by_word) waf).
  { apply sorted_stable; try apply _. apply sorted_StronglySorted; apply _. }
  rewrite !lookup_app_r by (simpl; lia). simpl.
  rewrite !list_lookup_fmap.
  destruct (waf !! (i - 2)%nat) as [[wi' fi]|] eqn:Hi; [|done].
  destruct (waf !! (j - 2)%nat) as [[wj' fj]|] eqn:Hj; [|done].
  simpl. intros [= <-] [= <-] Hfi Hfj.
  pose proof (StronglySorted_lookup_lt _ _ (i - 2) (j - 2) _ _ Hsorted
                ltac:(lia) Hi Hj) as [_ Hword].
  apply list_elem_of_lookup_2, words_and_frequencies_elem in Hi as [Hci _].
  apply list_elem_of_lookup_2, words_and_frequencies_elem in Hj as [Hcj _].
  assert (fi = f) as -> by congruence. assert (fj = f) as -> by congruence.
  apply Is_true_true. apply Hword. unfold by_freq_desc. simpl. lia.
Qed.

(** Three words that occur once each. *)
Lemma X25_vocabulary_ties_alphabetical_witness :
  itos (preprocess Tokenizers.WhitespaceTokenizer TabularDataset
          ["c a"] ["b"])
  = ["<unk>"; "<pad>"; "a"; "b"; "c"]
  /\ String.leb "a" "c" = true.
Proof.
  split; [vm_compute; reflexivity|].
  apply (X25_vocabulary_ties_alphabetical Tokenizers.WhitespaceTokenizer
           TabularDataset ["c a"] ["b"] 2 4 "a" "c" 1);
    [lia|by vm_compute|by vm_compute|by vm_compute|by vm_compute].
Defined.

End PreprocessExtra.
